(** * Hyperactive: the particle swarm optimizer and the [Hyperactive.search] driver

    A shallow embedding of
    - [hyperactive/particle_swarm_optimization.py]
      (classes [ParticleSwarm_Optimizer] and [Particle]), and of
    - [hyperactive/hyperactive.py] (class [Hyperactive], method [search]).

    Conventions of the embedding.
    - The numbers of the arithmetic of the move are IEEE 754 doubles
      ([float]) with the rounding of every single operation, and 64-bit
      integers with their wrap-around.  Scores and times are only handed on
      and compared; they are kept as rationals ([Qc]).
    - A numpy array of shape [(d,)] is a list; numpy's broadcasting of two
      such arrays is [np_broadcast].
    - [self] and everything outside of it that the code talks to (the random
      generator, the model training, [print]) is one [State] threaded through
      a state-and-exception monad [M].  A raised exception keeps the state
      reached so far.
    - The values returned by the outside world are read from an environment
      [Env], indexed by the number of earlier calls. *)

From Stdlib Require Import QArith Qcanon ZArith Lia SpecFloat.
From stdpp Require Import base numbers option list strings gmap.

Local Open Scope Z_scope.

(** ** Python exceptions *)

Inductive exn : Set :=
  | TypeError
  | ValueError
  | IndexError
  | KeyError
  | AttributeError
  | ZeroDivisionError
  | RayTaskError.

(** ** Values, positions, velocities *)

(** A candidate value of a dimension of the search space. *)
Inductive pyvalue : Set :=
  | PyInt (n : Z)
  | PyFloat (x : Qc)
  | PyStr (s : string)
  | PyBool (b : bool)
  | PyNone.

(** A Python [float], a component of a numpy [float64] array: an IEEE 754
    binary64 number. *)
Abbreviation float := spec_float.
(** An integer array ([int64]): one index per dimension of the search
    space. *)
Abbreviation position := (list Z).
(** A float array ([float64]). *)
Abbreviation velocity := (list float).
(** [ml_search_dict]: the dimensions in insertion order, each a name with
    its candidate values. *)
Abbreviation search_space := (list (string * list pyvalue)).
(** The decoded position, handed to the model training. *)
Abbreviation hyperpara_dict := (list (string * pyvalue)).
(** The estimator object returned by the model training: an opaque handle. *)
Definition Model := nat.

(** ** Doubles and 64-bit integers *)

(** [x + y], [x * y] and [x / y] on doubles, each rounded to the nearest
    double, ties to even. *)
Definition fadd : float → float → float := SFadd 53 1024.
Definition fmul : float → float → float := SFmul 53 1024.
Definition fdiv : float → float → float := SFdiv 53 1024.

(** The conversion of an integer to a double: the nearest double. *)
Definition float_of_int (x : Z) : float := binary_normalize 53 1024 x 0 false.

(** The double that Python reads from the decimal literal with the value
    [a / b], for integers [a] and [b] that are doubles themselves: the
    double nearest to the quotient. *)
Definition float_lit (a b : Z) : float :=
  fdiv (float_of_int a) (float_of_int b).

(** [0.0] *)
Definition fzero : float := S754_zero false.

(** The result of an operation on [int64], which wraps around. *)
Definition wrap64 (z : Z) : Z := (z + 2 ^ 63) mod 2 ^ 64 - 2 ^ 63.

(** The conversion of a double to [int64] as numpy does it on x86-64 (the
    C cast, [cvttsd2si]): the fractional part is dropped; a NaN, an
    infinity and a value outside of the range of [int64] give [-2^63]. *)
Definition astype_int (x : float) : Z :=
  match x with
  | S754_zero _ => 0
  | S754_finite s m e =>
      let t := cond_Zopp s (Z.shiftl (Z.pos m) e) in
      if decide (- 2 ^ 63 ≤ t < 2 ^ 63) then t else - 2 ^ 63
  | _ => - 2 ^ 63
  end.

(** ** numpy *)

(** [f] applied elementwise to two arrays of shape [(n,)] and [(m,)]:
    equal shapes pair up, a one-element array is stretched, anything else is
    numpy's "operands could not be broadcast together". *)
Definition np_broadcast {A B C : Type} (f : A → B → C)
    (a : list A) (b : list B) : exn + list C :=
  if decide (length a = length b) then inr (zip_with f a b)
  else match a, b with
       | [x], _ => inr (f x <$> b)
       | _, [y] => inr ((λ x, f x y) <$> a)
       | _, _ => inl ValueError
       end.

(** [np.subtract(a, b)] on integer arrays. *)
Definition np_subtract (a b : position) : exn + position :=
  np_broadcast (λ x y, wrap64 (x - y)) a b.

(** [a + b] on float arrays. *)
Definition np_add (a b : velocity) : exn + velocity :=
  np_broadcast fadd a b.

(** [a + b] for an integer array [a] and a float array [b]: the integers
    are promoted. *)
Definition np_add_int_float (a : position) (b : velocity) : exn + velocity :=
  np_broadcast (λ x v, fadd (float_of_int x) v) a b.

(** [k * a] for a Python float [k] and a float array [a]. *)
Definition np_scale (k : float) (a : velocity) : velocity :=
  fmul k <$> a.

(** [k * a] for a Python float [k] and an integer array [a]: the integers
    are promoted. *)
Definition np_scale_int (k : float) (a : position) : velocity :=
  (λ x, fmul k (float_of_int x)) <$> a.

(** [np.zeros(n)] *)
Definition np_zeros (n : nat) : velocity := replicate n fzero.

(** ** The state-and-exception monad *)

(** A computation on a state [S]: the state it leaves, and the exception
    raised or the value returned. *)
Definition Mon (S A : Type) : Type := S → S * (exn + A).

Definition ret {S A : Type} (a : A) : Mon S A := λ st, (st, inr a).

Definition bind {S A B : Type} (m : Mon S A) (k : A → Mon S B) : Mon S B :=
  λ st, match m st with
        | (st', inl e) => (st', inl e)
        | (st', inr a) => k a st'
        end.

Definition raise {S A : Type} (e : exn) : Mon S A := λ st, (st, inl e).

Definition gets {S A : Type} (f : S → A) : Mon S A := λ st, (st, inr (f st)).

Definition modify {S : Type} (f : S → S) : Mon S unit := λ st, (f st, inr tt).

(** An exception of a pure operation is raised in the monad. *)
Definition lift {S A : Type} (r : exn + A) : Mon S A :=
  match r with inl e => raise e | inr a => ret a end.

Declare Scope pso_scope.
Delimit Scope pso_scope with pso.
Notation "x <- m ;; k" := (bind m (λ x, k))
  (at level 100, m at next level, right associativity) : pso_scope.
Notation "m ;;; k" := (bind m (λ _, k))
  (at level 100, right associativity) : pso_scope.
Local Open Scope pso_scope.

(** [for i in range(lo, lo + n): body(i)] *)
Fixpoint for_range {St : Type} (body : nat → Mon St unit) (lo n : nat)
    : Mon St unit :=
  match n with
  | O => ret tt
  | S n' => body lo ;;; for_range body (S lo) n'
  end.

(** ** Particle *)

Module Particle.

(** [Particle.__init__] sets every attribute to [None];
    [_init_particles] assigns [pos], [best_pos] and [velo] right after the
    construction, so these three are kept without the option. *)
Record t := mk {
  pos : position;
  velo : velocity;
  best_pos : position;
  best_score : option Qc;
  train_time : option Qc;
  sklearn_model : option Model }.

Definition set_pos (x : position) (p : t) : t :=
  mk x (velo p) (best_pos p) (best_score p) (train_time p) (sklearn_model p).

Definition set_velo (v : velocity) (p : t) : t :=
  mk (pos p) v (best_pos p) (best_score p) (train_time p) (sklearn_model p).

(** The triple assignment of [_eval_particles]. *)
Definition set_result (r : Qc * Qc * Model) (p : t) : t :=
  mk (pos p) (velo p) (best_pos p)
     (Some r.1.1) (Some r.1.2) (Some r.2).

(** [Particle.move]: [self.pos = (self.pos + self.velo).astype(int)] *)
Definition move (p : t) : exn + t :=
  match np_add_int_float (pos p) (velo p) with
  | inl e => inl e
  | inr s => inr (set_pos (astype_int <$> s) p)
  end.

End Particle.

(** ** The search space helpers of [BaseOptimizer] *)

(** A position is valid when it has one component per dimension and each
    component indexes a candidate value of its dimension. *)
Definition valid_pos (space : search_space) (x : position) : Prop :=
  Forall2 (λ i d, 0 ≤ i < Z.of_nat (length d.2)) x space.

(** Every dimension has at least one candidate value. *)
Definition valid_space (space : search_space) : Prop :=
  Forall (λ d, (0 < length d.2)%nat) space.

(** Modelled from the spec: [BaseOptimizer._get_dim_SearchSpace] is not part
    of the sources; the spec's [dimensionality()] "returns the number of
    dimensions (used to size velocity/step vectors)". *)
Definition _get_dim_SearchSpace (space : search_space) : nat := length space.

(** Modelled from the spec: [BaseOptimizer._limit_pos] is not part of the
    sources; the spec has every component "clamped to
    [0, len(dimension.values)-1]".  The result is a new array, the argument
    is left as it is. *)
Definition _limit_pos (space : search_space) (x : position) : position :=
  zip_with (λ i d, Z.max 0 (Z.min i (Z.of_nat (length d.2) - 1))) x space.

(** Modelled from the spec: [BaseOptimizer._pos_np2values_dict] is not part
    of the sources; the spec's [decode] maps each index to the candidate
    value of its dimension and "on an out-of-range component fails with
    IndexOutOfBounds". *)
Fixpoint decode (space : search_space) (x : position) : exn + hyperpara_dict :=
  match space, x with
  | [], [] => inr []
  | d :: space', i :: x' =>
      if decide (0 ≤ i) then
        match d.2 !! Z.to_nat i with
        | None => inl IndexError
        | Some v =>
            match decode space' x' with
            | inl e => inl e
            | inr a => inr ((d.1, v) :: a)
            end
        end
      else inl IndexError
  | _, _ => inl IndexError
  end.

(** ** The outside world *)

(** What the code prints and which external calls it makes, oldest first. *)
Inductive event : Type :=
  | PrintStep (i : nat)              (* print('\nstep:', i, '\n') *)
  | PrintPos (x : position)          (* print('\n----...p.pos;', p.pos) *)
  | Decode (x : option position)     (* self._pos_np2values_dict(x) *)
  | Train (x : position) (d : hyperpara_dict).
                                     (* self._train_model(d), d decoded from x *)

(** The answers of the external collaborators; [k] is the number of calls
    made before. *)
Record Env := mkEnv {
  (** [rnd.random()] *)
  rnd_random : nat → float;
  (** [self._pos_dict2np_array(self._get_random_position())] *)
  random_position : nat → position;
  (** [self._train_model(d)]: score, training time, estimator.  The method
      is not part of the sources; a training that raises is not modelled. *)
  train_model : nat → hyperpara_dict → Qc * Qc * Model }.

(** Modelled from the spec: [BaseOptimizer._get_random_position] is not part
    of the sources; the spec's [random_position()] "returns a uniformly
    random valid Position".  [rnd.random()] returns a float in [0, 1). *)
Record valid_env (space : search_space) (E : Env) : Prop := {
  random_unit : ∀ k, SFleb fzero (rnd_random E k) = true ∧
                     SFltb (rnd_random E k) (float_of_int 1) = true;
  random_position_valid : ∀ k, valid_pos space (random_position E k) }.

(** ** The optimizer object and the monad *)

(** The attributes of a [ParticleSwarm_Optimizer] that its methods read or
    write ([best_model], [best_hyperpara_dict] and [best_train_time] are set
    to [None] by [__init__] and never touched again), and the counters and
    the log of the outside world. *)
Record State := mkState {
  ml_search_dict : search_space;
  n_searches : Z;
  n_jobs : Z;
  n_particles : nat;
  best_score : Qc;
  best_pos : option position;
  p_list : list Particle.t;
  random_calls : nat;
  position_calls : nat;
  train_calls : nat;
  log : list event }.

Definition set_best (s : Qc) (x : option position) (st : State) : State :=
  mkState (ml_search_dict st) (n_searches st) (n_jobs st) (n_particles st)
    s x (p_list st)
    (random_calls st) (position_calls st) (train_calls st) (log st).

Definition set_p_list (l : list Particle.t) (st : State) : State :=
  mkState (ml_search_dict st) (n_searches st) (n_jobs st) (n_particles st)
    (best_score st) (best_pos st) l
    (random_calls st) (position_calls st) (train_calls st) (log st).

Definition set_world (r q t : nat) (l : list event) (st : State) : State :=
  mkState (ml_search_dict st) (n_searches st) (n_jobs st) (n_particles st)
    (best_score st) (best_pos st) (p_list st) r q t l.

(** A computation on the optimizer: the state it leaves, and the exception
    raised or the value returned. *)
Definition M (A : Type) : Type := Mon State A.

(** [for p in self.p_list: body(p)], by the index of [p] in the list. *)
Definition for_particles (body : nat → M unit) : M unit :=
  n <- gets (λ st, length (p_list st)) ;; for_range body 0 n.

(** The object [self.p_list[i]]. *)
Definition get_particle (i : nat) : M Particle.t :=
  l <- gets p_list ;;
  match l !! i with
  | Some p => ret p
  | None => raise IndexError
  end.

(** An attribute assignment on the object [self.p_list[i]]. *)
Definition update_particle (i : nat) (f : Particle.t → Particle.t) : M unit :=
  modify (λ st, set_p_list (alter f i (p_list st)) st).

Definition emit (e : event) : M unit :=
  modify (λ st, set_world (random_calls st) (position_calls st)
                  (train_calls st) (log st ++ [e]) st).

(** ** ParticleSwarm_Optimizer *)

(** [rnd.random()] *)
Definition random (E : Env) : M float :=
  k <- gets random_calls ;;
  modify (λ st, set_world (S k) (position_calls st) (train_calls st)
                  (log st) st) ;;;
  ret (rnd_random E k).

(** [self._pos_np2values_dict(x)].  The final call of a run can pass [None]
    for [x].  The method is not part of the sources and the spec does not
    say what it does with [None]; a decoding has to index [x], which Python
    refuses for [None], so the model raises.  Which exception this is is a
    choice of the model; no property below depends on it. *)
Definition _pos_np2values_dict (x : option position) : M hyperpara_dict :=
  emit (Decode x) ;;;
  match x with
  | None => raise TypeError
  | Some x => space <- gets ml_search_dict ;; lift (decode space x)
  end.

(** [self._train_model(d)], where [d] was decoded from [x]. *)
Definition _train_model (E : Env) (x : position) (d : hyperpara_dict)
    : M (Qc * Qc * Model) :=
  k <- gets train_calls ;;
  emit (Train x d) ;;;
  modify (λ st, set_world (random_calls st) (position_calls st) (S k)
                  (log st) st) ;;;
  ret (train_model E k d).

(** [ParticleSwarm_Optimizer.__init__]: the constructor arguments are
    stored, [best_score = 0] and [best_pos = None]. *)
Definition __init__ (ml_search_dict : search_space) (n_searches : Z)
    (n_particles : nat) (n_jobs : Z) : State :=
  mkState ml_search_dict n_searches n_jobs n_particles
    (Q2Qc 0) None [] 0 0 0 [].

(** [_find_best_particle], the body of the loop for the particle at [i].
    Comparing an unset ([None]) score with a number is a [TypeError]. *)
Definition find_best_body (i : nat) : M unit :=
  p <- get_particle i ;;
  best <- gets best_score ;;
  match Particle.best_score p with
  | None => raise TypeError
  | Some s =>
      match (s ?= best)%Qc with
      | Gt => modify (set_best s (Some (Particle.best_pos p)))
      | _ => ret tt
      end
  end.

Definition _find_best_particle : M unit := for_particles find_best_body.

(** The particles that [_init_particles] creates: for each one two random
    positions are drawn, the first for [pos] and the second for [best_pos],
    and the velocity is [np.zeros(dim)].  [k] is the number of positions
    drawn before. *)
Fixpoint init_list (E : Env) (dim : nat) (k n : nat) : list Particle.t :=
  match n with
  | O => []
  | S n' =>
      Particle.mk (random_position E k) (np_zeros dim)
        (random_position E (S k)) None None None
      :: init_list E dim (S (S k)) n'
  end.

Definition _init_particles (E : Env) : M unit :=
  modify (λ st,
    set_world (random_calls st) (position_calls st + 2 * n_particles st)%nat
      (train_calls st) (log st)
      (set_p_list
         (init_list E (_get_dim_SearchSpace (ml_search_dict st))
            (position_calls st) (n_particles st)) st)).

(** The local constants of [_move_particles]. *)
Definition W : float := float_lit 1 2.      (* W = 0.5 *)
Definition c1 : float := float_lit 4 5.     (* c1 = 0.8 *)
Definition c2 : float := float_lit 9 10.    (* c2 = 0.9 *)

(** [_move_particles], the body of the loop for the particle at [i].
    Python evaluates [c1 * rnd.random() * np.subtract(..)] left to right:
    the random number is drawn and multiplied with [c1] before the
    subtraction is tried, and subtracting from [None] is a [TypeError]. *)
Definition move_body (E : Env) (i : nat) : M unit :=
  p <- get_particle i ;;
  let A := np_scale W (Particle.velo p) in
  r1 <- random E ;;
  d1 <- lift (np_subtract (Particle.best_pos p) (Particle.pos p)) ;;
  let B := np_scale_int (fmul c1 r1) d1 in
  r2 <- random E ;;
  g <- gets best_pos ;;
  d2 <- match g with
        | None => raise TypeError
        | Some g => lift (np_subtract g (Particle.pos p))
        end ;;
  let C := np_scale_int (fmul c2 r2) d2 in
  AB <- lift (np_add A B) ;;
  new_velocity <- lift (np_add AB C) ;;
  update_particle i (Particle.set_velo new_velocity) ;;;
  p <- get_particle i ;;
  p' <- lift (Particle.move p) ;;
  update_particle i (λ _, p').

Definition _move_particles (E : Env) : M unit := for_particles (move_body E).

(** [_eval_particles], the body of the loop for the particle at [i]. *)
Definition eval_body (E : Env) (i : nat) : M unit :=
  p <- get_particle i ;;
  emit (PrintPos (Particle.pos p)) ;;;
  space <- gets ml_search_dict ;;
  let pos := _limit_pos space (Particle.pos p) in
  hyperpara_dict <- _pos_np2values_dict (Some pos) ;;
  r <- _train_model E pos hyperpara_dict ;;
  update_particle i (Particle.set_result r).

Definition _eval_particles (E : Env) : M unit := for_particles (eval_body E).

(** [int(self.n_searches / self.n_jobs)]: the true division, then the
    conversion to [int], which drops the fractional part.  The quotient of
    the true division is a double; it is the exact quotient truncated as
    long as both numbers are below [2^53] in absolute value, which is the
    range in which this definition is used. *)
Definition n_steps_of (n_searches n_jobs : Z) : exn + Z :=
  if decide (n_jobs = 0) then inl ZeroDivisionError
  else inr (Z.quot n_searches n_jobs).

(** One turn of the loop of [_start_particle_swarm_optimization]. *)
Definition step (E : Env) (i : nat) : M unit :=
  emit (PrintStep i) ;;;
  _eval_particles E ;;;
  _find_best_particle ;;;
  _move_particles E.

(** [_start_particle_swarm_optimization]; [range(n)] is empty for a
    negative [n].  The result is the tuple
    [(sklearn_model, score_best, hyperpara_dict_best, train_time)]. *)
Definition _start_particle_swarm_optimization (E : Env)
    : M (Model * Qc * hyperpara_dict * Qc) :=
  ns <- gets n_searches ;;
  nj <- gets n_jobs ;;
  n_steps <- lift (n_steps_of ns nj) ;;
  _init_particles E ;;;
  for_range (step E) 0 (Z.to_nat n_steps) ;;;
  best <- gets best_pos ;;
  hyperpara_dict_best <- _pos_np2values_dict best ;;
  r <- _train_model E (default [] best) hyperpara_dict_best ;;
  ret (r.2, r.1.1, hyperpara_dict_best, r.1.2).

(** ** hyperactive.py *)

(** A Python object of which only the identity matters here (the training
    data, a search configuration, a result table). *)
Definition pyobj := nat.

(** The optimizer classes imported by [hyperactive.py]. *)
Inductive optimizer_class : Set :=
  | HillClimbingOptimizer
  | StochasticHillClimbingOptimizer
  | TabuOptimizer
  | RandomSearchOptimizer
  | RandomRestartHillClimbingOptimizer
  | RandomAnnealingOptimizer
  | SimulatedAnnealingOptimizer
  | StochasticTunnelingOptimizer
  | ParallelTemperingOptimizer
  | ParticleSwarmOptimizer
  | EvolutionStrategyOptimizer
  | BayesianOptimizer.

Module MainArgs.
(** The attributes of a [MainArgs] object that [Hyperactive.search]
    reads; the class itself is not part of the sources. *)
Record t := mk {
  opt_para : pyobj;
  optimizer : string;
  n_jobs : Z }.
End MainArgs.

Module Optimizer.
(** The attributes of an optimizer object that [Hyperactive] reads;
    [None] is an attribute that does not exist (yet). *)
Record t := mk {
  results_params : option pyobj;
  results_models : option pyobj;
  pos_list : option pyobj;
  score_list : option pyobj;
  eval_time : option Qc }.
End Optimizer.

(** The arguments of a call of [Hyperactive.search]. *)
Record search_call := mkSearchCall {
  search_config : pyobj;
  n_iter : Z;
  max_time : option Qc;
  optimizer_arg : pyobj;
  n_jobs_arg : Z;
  warm_start : pyobj;
  scatter_init : pyobj }.

(** What [import ray] and [ray.is_initialized()] find. *)
Inductive ray_status : Set :=
  | RayNotInstalled
  | RayInstalled (is_initialized : bool).

(** Calls that leave the process, oldest first. *)
Inductive hyper_event : Type :=
  | Warn                                  (* warnings.warn("failed to import ray", ..) *)
  | RemoteActor (c : optimizer_class) (job : nat)
                                          (* optimizer_class.remote(..) *)
  | RemoteSearch (job : nat)              (* opt.search.remote(job, ray_=ray_) *)
  | RayGet (njobs : nat).                 (* ray.get(searches) *)

Module Hyperactive.

(** The collaborators of [Hyperactive.search] that are not part of the
    sources. *)
Record World := mkWorld {
  (** [time.time()], by the number of earlier calls *)
  time : nat → Qc;
  ray : ray_status;
  (** [MainArgs(X, y, memory, random_state, verbosity)] *)
  new_MainArgs : pyobj → pyobj → bool → Z → Z → MainArgs.t;
  (** [main_args.search_args(..)]: the object after the call, or the
      exception it raises *)
  search_args : MainArgs.t → search_call → exn + MainArgs.t;
  (** [Arguments(opt_para)] *)
  new_Arguments : pyobj → pyobj;
  (** [optimizer_class(main_args, opt_args)] *)
  new_optimizer : optimizer_class → MainArgs.t → pyobj → exn + Optimizer.t;
  (** [optimizer.search()]: the object after the call, and the exception
      if it raises one *)
  optimizer_search : Optimizer.t → Optimizer.t * option exn;
  (** the outcome of the remote task [opt.search.remote(job, ray_=True)]
      on a remote instance of the class *)
  remote_search :
    optimizer_class → MainArgs.t → pyobj → nat → exn + pyobj }.

(** The attributes of a [Hyperactive] object ([None]: the attribute does
    not exist), the number of calls of [time.time()] and the log. *)
Record t := mk {
  X : pyobj;
  _main_args_ : MainArgs.t;
  optimizer_dict : gmap string optimizer_class;
  _opt_args_ : option pyobj;
  _optimizer_ : option Optimizer.t;
  results_params : option pyobj;
  results_models : option pyobj;
  pos_list : option pyobj;
  score_list : option pyobj;
  total_time : option Qc;
  time_calls : nat;
  hlog : list hyper_event }.

Definition set_main_args (m : MainArgs.t) (h : t) : t :=
  mk (X h) m (optimizer_dict h) (_opt_args_ h) (_optimizer_ h)
    (results_params h) (results_models h) (pos_list h) (score_list h)
    (total_time h) (time_calls h) (hlog h).

Definition set_opt_args (a : pyobj) (h : t) : t :=
  mk (X h) (_main_args_ h) (optimizer_dict h) (Some a) (_optimizer_ h)
    (results_params h) (results_models h) (pos_list h) (score_list h)
    (total_time h) (time_calls h) (hlog h).

Definition set_optimizer (o : Optimizer.t) (h : t) : t :=
  mk (X h) (_main_args_ h) (optimizer_dict h) (_opt_args_ h) (Some o)
    (results_params h) (results_models h) (pos_list h) (score_list h)
    (total_time h) (time_calls h) (hlog h).

Definition set_results_params (v : pyobj) (h : t) : t :=
  mk (X h) (_main_args_ h) (optimizer_dict h) (_opt_args_ h) (_optimizer_ h)
    (Some v) (results_models h) (pos_list h) (score_list h)
    (total_time h) (time_calls h) (hlog h).

Definition set_results_models (v : pyobj) (h : t) : t :=
  mk (X h) (_main_args_ h) (optimizer_dict h) (_opt_args_ h) (_optimizer_ h)
    (results_params h) (Some v) (pos_list h) (score_list h)
    (total_time h) (time_calls h) (hlog h).

Definition set_pos_list (v : pyobj) (h : t) : t :=
  mk (X h) (_main_args_ h) (optimizer_dict h) (_opt_args_ h) (_optimizer_ h)
    (results_params h) (results_models h) (Some v) (score_list h)
    (total_time h) (time_calls h) (hlog h).

Definition set_score_list (v : pyobj) (h : t) : t :=
  mk (X h) (_main_args_ h) (optimizer_dict h) (_opt_args_ h) (_optimizer_ h)
    (results_params h) (results_models h) (pos_list h) (Some v)
    (total_time h) (time_calls h) (hlog h).

Definition set_total_time (v : Qc) (h : t) : t :=
  mk (X h) (_main_args_ h) (optimizer_dict h) (_opt_args_ h) (_optimizer_ h)
    (results_params h) (results_models h) (pos_list h) (score_list h)
    (Some v) (time_calls h) (hlog h).

Definition set_time_calls (n : nat) (h : t) : t :=
  mk (X h) (_main_args_ h) (optimizer_dict h) (_opt_args_ h) (_optimizer_ h)
    (results_params h) (results_models h) (pos_list h) (score_list h)
    (total_time h) n (hlog h).

Definition emit (e : hyper_event) : Mon t unit :=
  modify (λ h,
    mk (X h) (_main_args_ h) (optimizer_dict h) (_opt_args_ h)
      (_optimizer_ h) (results_params h) (results_models h) (pos_list h)
      (score_list h) (total_time h) (time_calls h) (hlog h ++ [e])).

(** Reading an attribute: [None] is an [AttributeError]. *)
Definition getattr {St A : Type} (o : option A) : Mon St A :=
  match o with
  | Some a => ret a
  | None => raise AttributeError
  end.

(** Looking up a key of a dict: a missing key is a [KeyError]. *)
Definition getitem {St A : Type} (o : option A) : Mon St A :=
  match o with
  | Some a => ret a
  | None => raise KeyError
  end.

(** [time.time()] *)
Definition now (W : World) : Mon t Qc :=
  k <- gets time_calls ;;
  modify (set_time_calls (S k)) ;;;
  ret (time W k).

(** [Hyperactive.__init__]; [stop_warnings()] replaces [warnings.warn]
    by a function that does nothing, which no attribute records. *)
Definition __init__ (W : World) (X y : pyobj) (memory : bool)
    (random_state verbosity : Z) (warnings : bool) : t :=
  mk X (new_MainArgs W X y memory random_state verbosity)
    (list_to_map
       [("HillClimbing"%string, HillClimbingOptimizer);
        ("StochasticHillClimbing"%string, StochasticHillClimbingOptimizer);
        ("TabuSearch"%string, TabuOptimizer);
        ("RandomSearch"%string, RandomSearchOptimizer);
        ("RandomRestartHillClimbing"%string,
           RandomRestartHillClimbingOptimizer);
        ("RandomAnnealing"%string, RandomAnnealingOptimizer);
        ("SimulatedAnnealing"%string, SimulatedAnnealingOptimizer);
        ("StochasticTunneling"%string, StochasticTunnelingOptimizer);
        ("ParallelTempering"%string, ParallelTemperingOptimizer);
        ("ParticleSwarm"%string, ParticleSwarmOptimizer);
        ("EvolutionStrategy"%string, EvolutionStrategyOptimizer);
        ("Bayesian"%string, BayesianOptimizer)])
    None None None None None None None 0 [].

(** The [try: import ray ...] block; the value is [ray_]. *)
Definition detect_ray (W : World) : Mon t bool :=
  match ray W with
  | RayInstalled b => ret b
  | RayNotInstalled => emit Warn ;;; ret false
  end.

(** The two list comprehensions of the [ray_] branch: one remote
    instance and one remote call of [search] per job. *)
Definition submit_jobs (c : optimizer_class) (n : nat) : Mon t unit :=
  for_range (λ job, emit (RemoteActor c job)) 0 n ;;;
  for_range (λ job, emit (RemoteSearch job)) 0 n.

(** [ray.get(searches)]: waits for every task; the exception of a failed
    task is raised here, otherwise the list of their results is the
    value. *)
Fixpoint collect (l : list (exn + pyobj)) : exn + list pyobj :=
  match l with
  | [] => inr []
  | inl e :: _ => inl e
  | inr v :: l' =>
      match collect l' with
      | inl e => inl e
      | inr vs => inr (v :: vs)
      end
  end.

Definition ray_get (W : World) (c : optimizer_class) (m : MainArgs.t)
    (a : pyobj) (n : nat) : Mon t (list pyobj) :=
  emit (RayGet n) ;;;
  lift (collect (remote_search W c m a <$> seq 0 n)).

(** [Hyperactive.search] *)
Definition search (W : World) (call : search_call) : Mon t unit :=
  start_time <- now W ;;
  m <- gets _main_args_ ;;
  m <- lift (search_args W m call) ;;
  modify (set_main_args m) ;;;
  let a := new_Arguments W (MainArgs.opt_para m) in
  modify (set_opt_args a) ;;;
  d <- gets optimizer_dict ;;
  optimizer_class <- getitem (d !! MainArgs.optimizer m) ;;
  ray_ <- detect_ray W ;;
  (if ray_ then
     let n := Z.to_nat (MainArgs.n_jobs m) in
     submit_jobs optimizer_class n ;;;
     _ <- ray_get W optimizer_class m a n ;;
     ret tt
   else
     o <- lift (new_optimizer W optimizer_class m a) ;;
     modify (set_optimizer o) ;;;
     let r := optimizer_search W o in
     modify (set_optimizer r.1) ;;;
     match r.2 with Some e => raise e | None => ret tt end) ;;;
  o <- gets _optimizer_ ;; o <- getattr o ;;
  v <- getattr (Optimizer.results_params o) ;;
  modify (set_results_params v) ;;;
  o <- gets _optimizer_ ;; o <- getattr o ;;
  v <- getattr (Optimizer.results_models o) ;;
  modify (set_results_models v) ;;;
  o <- gets _optimizer_ ;; o <- getattr o ;;
  v <- getattr (Optimizer.pos_list o) ;;
  modify (set_pos_list v) ;;;
  o <- gets _optimizer_ ;; o <- getattr o ;;
  v <- getattr (Optimizer.score_list o) ;;
  modify (set_score_list v) ;;;
  end_time <- now W ;;
  modify (set_total_time (end_time - start_time)%Qc).

(** [Hyperactive.get_total_time] *)
Definition get_total_time : Mon t Qc :=
  v <- gets total_time ;; getattr v.

(** [Hyperactive.get_eval_time] *)
Definition get_eval_time : Mon t Qc :=
  o <- gets _optimizer_ ;; o <- getattr o ;;
  getattr (Optimizer.eval_time o).

(** [Hyperactive.save_report]: [pass] *)
Definition save_report : Mon t unit := ret tt.

End Hyperactive.

(** * Vocabulary of the properties *)

(** The real number that a double stands for, as a fraction; none for an
    infinity and for NaN. *)
Definition float_value (x : float) : option Q :=
  match x with
  | S754_zero _ => Some (0 # 1)
  | S754_finite s m (Z.neg k) => Some (cond_Zopp s (Z.pos m) # 2 ^ k)
  | S754_finite s m e => Some (cond_Zopp s (Z.pos m) * 2 ^ e # 1)
  | _ => None
  end.

(** The integer part of [q]: the integer next to [q] on the side of
    zero. *)
Definition integer_part (q : Q) : Z := Z.quot (Qnum q) (Z.pos (Qden q)).

(** [z] fits into an [int64]. *)
Definition int64_range (z : Z) : Prop := - 2 ^ 63 ≤ z < 2 ^ 63.

(** Every state that [m] can leave, normally or by an exception, is
    related to the state it started in. *)
Definition preserves {St A : Type} (R : St → St → Prop) (m : Mon St A)
    : Prop :=
  ∀ st, R st (m st).1.

(** The global best pair of [st'] is the one of [st]. *)
Definition same_best (st st' : State) : Prop :=
  best_score st' = best_score st ∧ best_pos st' = best_pos st.

(** The global best score of [st'] is at least the one of [st]. *)
Definition best_le (st st' : State) : Prop :=
  (best_score st ≤ best_score st')%Qc.


(** [m], started in [st], either returns a value [a] in a state [st'] with
    [Q a st'], or raises an exception in a state [st'] with [X st']. *)
Definition wp {St A : Type} (m : Mon St A) (Q : A → St → Prop)
    (X : St → Prop) (st : St) : Prop :=
  match m st with
  | (st', inr a) => Q a st'
  | (st', inl _) => X st'
  end.

(** No global best has been recorded, and no particle holds a score above
    zero. *)
Definition no_best (st : State) : Prop :=
  best_pos st = None ∧ best_score st = Q2Qc 0 ∧
  Forall (λ p, ∀ s, Particle.best_score p = Some s → (s ≤ Q2Qc 0)%Qc)
    (p_list st).

(** The numbers of the turns of the loop of a run that were started, as
    the log shows them. *)
Definition step_indices (l : list event) : list nat :=
  omap (λ e, match e with PrintStep i => Some i | _ => None end) l.

(** The positions on which the model training was called, one entry per
    call. *)
Definition trained (l : list event) : list position :=
  omap (λ e, match e with Train x _ => Some x | _ => None end) l.

(** [st'] shows the same turns as [st]. *)
Definition same_steps (st st' : State) : Prop :=
  step_indices (log st') = step_indices (log st).

(** [h] with the events [l] added to its log. *)
Definition add_hlog (l : list hyper_event) (h : Hyperactive.t)
    : Hyperactive.t :=
  Hyperactive.mk (Hyperactive.X h) (Hyperactive._main_args_ h)
    (Hyperactive.optimizer_dict h) (Hyperactive._opt_args_ h)
    (Hyperactive._optimizer_ h) (Hyperactive.results_params h)
    (Hyperactive.results_models h) (Hyperactive.pos_list h)
    (Hyperactive.score_list h) (Hyperactive.total_time h)
    (Hyperactive.time_calls h) (Hyperactive.hlog h ++ l).

(** The event hands only valid positions to the decoding and to the model
    training, and what is trained is the decoding of the position. *)
Definition event_valid (space : search_space) (e : event) : Prop :=
  match e with
  | Decode (Some x) => valid_pos space x
  | Train x d => valid_pos space x ∧ decode space x = inr d
  | _ => True
  end.

(** The arrays of a particle have one component per dimension, and its
    best position is valid. *)
Definition particle_ok (space : search_space) (p : Particle.t) : Prop :=
  length (Particle.pos p) = length space ∧
  length (Particle.velo p) = length space ∧
  valid_pos space (Particle.best_pos p).

(** The invariant of a run on the search space [space]. *)
Definition safe (space : search_space) (st : State) : Prop :=
  ml_search_dict st = space ∧
  Forall (event_valid space) (log st) ∧
  (∀ g, best_pos st = Some g → valid_pos space g) ∧
  Forall (particle_ok space) (p_list st).

(** [c] calls of the model training so far, each one in the log, on [n]
    particles. *)
Definition counted (c n : nat) (st : State) : Prop :=
  train_calls st = c ∧ length (p_list st) = n ∧
  length (trained (log st)) = c.


(** The arrays that the move computes when no shape has to be stretched:
    the new velocity for the random numbers [r1] and [r2] and the global
    best position [g], and the particle after the move. *)
Definition new_velocity (r1 r2 : float) (g : position) (p : Particle.t)
    : velocity :=
  zip_with fadd
    (zip_with fadd (np_scale W (Particle.velo p))
       (np_scale_int (fmul c1 r1)
          (zip_with (λ x y, wrap64 (x - y)) (Particle.best_pos p)
             (Particle.pos p))))
    (np_scale_int (fmul c2 r2)
       (zip_with (λ x y, wrap64 (x - y)) g (Particle.pos p))).




(** [st'] has as many particles as [st]. *)
Definition same_size (st st' : State) : Prop :=
  length (p_list st') = length (p_list st).

(** The state of the loop of [_find_best_particle] on the swarm [l],
    started in [st0], before the turn for the particle at [k]: the global
    best score is at least the one of [st0] and at least the score of every
    particle before [k]; the global best pair is the one of [st0] or the
    score and the best position of one of these particles. *)
Definition searching (l : list Particle.t) (st0 : State) (k : nat)
    (st : State) : Prop :=
  p_list st = l ∧
  (best_score st0 ≤ best_score st)%Qc ∧
  (∀ j p s, (j < k)%nat → l !! j = Some p → Particle.best_score p = Some s →
            (s ≤ best_score st)%Qc) ∧
  (same_best st0 st ∨
   ∃ j p, (j < k)%nat ∧ l !! j = Some p ∧
          Particle.best_score p = Some (best_score st) ∧
          best_pos st = Some (Particle.best_pos p) ∧
          (best_score st0 < best_score st)%Qc).

(** The recorded best positions of the swarm are those of the particles
    [l0], the global best position, if set, is one of them, and the search
    space is [space]. *)
Definition drawn (space : search_space) (l0 : list Particle.t)
    (st : State) : Prop :=
  ml_search_dict st = space ∧
  Particle.best_pos <$> p_list st = Particle.best_pos <$> l0 ∧
  (∀ g, best_pos st = Some g → g ∈ Particle.best_pos <$> l0).


(** * Properties *)

(** ** Arrays of one shape *)

Lemma np_broadcast_same {A B C : Type} (f : A → B → C) a b :
  length a = length b → np_broadcast f a b = inr (zip_with f a b).
Proof. intros H. unfold np_broadcast. by rewrite decide_True. Qed.

(** ** The conversion to integers *)

(** [integer_part] is the truncation toward zero. *)
Lemma integer_part_toward_zero (q : Q) :
  let n := integer_part q in
  ((0 <= q)%Q → (inject_Z n <= q)%Q ∧ (q < inject_Z (n + 1))%Q) ∧
  ((q <= 0)%Q → (inject_Z (n - 1) < q)%Q ∧ (q <= inject_Z n)%Q).
Proof.
  destruct q as [a b]. unfold integer_part, Qle, Qlt; cbn.
  pose proof (Z.quot_rem' a (Z.pos b)) as Hqr.
  split; intros Ha.
  - assert (0 ≤ a) as Ha' by lia.
    pose proof (Z.rem_bound_pos a (Z.pos b) Ha' ltac:(lia)). nia.
  - assert (a ≤ 0) as Ha' by lia.
    pose proof (Z.rem_bound_pos_neg a (Z.pos b) ltac:(lia) Ha'). nia.
Qed.

Lemma cond_Zopp_mul s a b : cond_Zopp s a * b = cond_Zopp s (a * b).
Proof. destruct s; cbn [cond_Zopp]; lia. Qed.

(** The integer that the mantissa and the exponent of a double give when
    the fraction is dropped is the integer part of its value. *)
Lemma shift_integer_part s m e q :
  float_value (S754_finite s m e) = Some q →
  cond_Zopp s (Z.shiftl (Z.pos m) e) = integer_part q.
Proof.
  unfold float_value, integer_part. destruct e as [|k|k]; intros [= <-];
    cbn [Qnum Qden].
  - rewrite Z.quot_1_r, cond_Zopp_mul. f_equal.
    by rewrite Z.shiftl_mul_pow2.
  - rewrite Z.quot_1_r, cond_Zopp_mul. f_equal.
    by rewrite Z.shiftl_mul_pow2.
  - change (Z.shiftl (Z.pos m) (Z.neg k)) with (Z.shiftr (Z.pos m) (Z.pos k)).
    rewrite Z.shiftr_div_pow2 by lia. rewrite Pos2Z.inj_pow.
    assert (0 < 2 ^ Z.pos k) by (apply Z.pow_pos_nonneg; lia).
    destruct s; cbn [cond_Zopp].
    + rewrite Z.quot_opp_l by lia. f_equal.
      rewrite Z.quot_div_nonneg by lia. done.
    + rewrite Z.quot_div_nonneg by lia. done.
Qed.

(** The conversion of a double that is a number: the integer part of its
    value if that is an [int64], and [-2^63] if not. *)
Lemma astype_int_integer_part x q :
  float_value x = Some q →
  (int64_range (integer_part q) → astype_int x = integer_part q) ∧
  (¬ int64_range (integer_part q) → astype_int x = - 2 ^ 63).
Proof.
  destruct x as [s|s| |s m e]; try done.
  - intros [= <-]. split; [done|]. intros []. unfold int64_range. vm_compute. split; congruence.
  - intros Hq. rewrite <- (shift_integer_part s m e q Hq).
    unfold astype_int, int64_range. case_decide; split; done.
Qed.

Lemma astype_int_not_a_number x :
  float_value x = None → astype_int x = - 2 ^ 63.
Proof. destruct x as [s|s| |s m [|k|k]]; done. Qed.

(** C6: [Particle.move] on arrays of one shape stores, for every
    component, the conversion to [int64] of the sum of the position and the
    velocity component, a sum that is rounded to a double first.  If this
    double is a number whose integer part is an [int64], the integer part is
    stored: the fraction is dropped toward zero, so [-0.7] becomes [0] (the
    floor would be [-1]) and [2.9] becomes [2] (rounding would give [3]);
    otherwise [-2^63] is stored.  The velocity is left as it is. *)
Theorem C6_move_truncates_rounded_sum (p : Particle.t) :
  length (Particle.pos p) = length (Particle.velo p) →
  ∃ p', Particle.move p = inr p' ∧
    Particle.velo p' = Particle.velo p ∧
    Particle.best_pos p' = Particle.best_pos p ∧
    length (Particle.pos p') = length (Particle.pos p) ∧
    (∀ k x v,
       Particle.pos p !! k = Some x → Particle.velo p !! k = Some v →
       let s := fadd (float_of_int x) v in
       Particle.pos p' !! k = Some (astype_int s) ∧
       match float_value s with
       | Some q =>
           (int64_range (integer_part q) → astype_int s = integer_part q) ∧
           (¬ int64_range (integer_part q) → astype_int s = - 2 ^ 63)
       | None => astype_int s = - 2 ^ 63
       end) ∧
    astype_int (float_lit (-7) 10) = 0 ∧ astype_int (float_lit 29 10) = 2.
Proof.
  intros Hlen. unfold Particle.move, np_add_int_float.
  rewrite np_broadcast_same by done. eexists. split; [reflexivity|].
  cbn [Particle.velo Particle.best_pos Particle.pos Particle.set_pos].
  split_and!; try done.
  - rewrite length_fmap, length_zip_with. lia.
  - intros k x v Hx Hv. split.
    + rewrite list_lookup_fmap, lookup_zip_with, Hx. cbn. by rewrite Hv.
    + destruct (float_value _) as [q|] eqn:Hq.
      * by apply astype_int_integer_part.
      * by apply astype_int_not_a_number.
Qed.

(** Positions [0], [0] and [7] with the velocities [-0.7], [2.9] and
    [-2.5]: the new positions are [0], [2] and [4]. *)
Lemma C6_move_truncates_rounded_sum_witness :
  let p := Particle.mk [0; 0; 7]
             [float_lit (-7) 10; float_lit 29 10; float_lit (-5) 2]
             [0; 0; 0] None None None in
  ∃ p', Particle.move p = inr p' ∧ Particle.pos p' = [0; 2; 4].
Proof.
  intros p.
  destruct (C6_move_truncates_rounded_sum p eq_refl)
    as (p' & Hm & _ & _ & Hl & Hk & _).
  exists p'. split; [exact Hm|].
  destruct (Hk 0%nat 0 (float_lit (-7) 10) eq_refl eq_refl) as [H0 _].
  destruct (Hk 1%nat 0 (float_lit 29 10) eq_refl eq_refl) as [H1 _].
  destruct (Hk 2%nat 7 (float_lit (-5) 2) eq_refl eq_refl) as [H2 _].
  destruct (Particle.pos p') as [|a [|b [|c [|]]]]; try discriminate Hl.
  injection H0 as ->. injection H1 as ->. injection H2 as ->.
  vm_compute. reflexivity.
Defined.

(** The sum is not the real-valued one.  At position [1] with the velocity
    [1.9999999999999998], a double, the real sum [2.9999999999999998] has
    the integer part [2], but the sum of the doubles is [3.0] and [3] is
    stored.  At position [1] with the velocity [2^100] the integer part of
    the sum is above [2^100], and [-2^63] is stored. *)
Lemma C6_counterexample :
  let v := S754_finite false 9007199254740991 (-52) in
  let big := float_of_int (2 ^ 100) in
  float_value v = Some (9007199254740991 # 4503599627370496) ∧
  integer_part (1 + (9007199254740991 # 4503599627370496)) = 2 ∧
  Particle.move (Particle.mk [1] [v] [0] None None None)
    = inr (Particle.mk [3] [v] [0] None None None) ∧
  float_value big = Some (2 ^ 100 # 1) ∧
  integer_part (1 + (2 ^ 100 # 1)) = 2 ^ 100 + 1 ∧
  Particle.move (Particle.mk [1] [big] [0] None None None)
    = inr (Particle.mk [- 2 ^ 63] [big] [0] None None None).
Proof. vm_compute. repeat split. Qed.

(** ** Reasoning about computations *)

Section Preserves.
Context {St : Type} (R : St → St → Prop) `{!PreOrder R}.

Lemma preserves_ret {A : Type} (a : A) : preserves R (ret a).
Proof. intros st. reflexivity. Qed.

Lemma preserves_raise {A : Type} (e : exn) : preserves R (raise (A:=A) e).
Proof. intros st. reflexivity. Qed.

Lemma preserves_gets {A : Type} (f : St → A) : preserves R (gets f).
Proof. intros st. reflexivity. Qed.

Lemma preserves_lift {A : Type} (r : exn + A) : preserves R (lift r).
Proof. destruct r; intros st; reflexivity. Qed.

Lemma preserves_modify (f : St → St) :
  (∀ st, R st (f st)) → preserves R (modify f).
Proof. intros H st. apply H. Qed.

Lemma preserves_bind {A B : Type} (m : Mon St A) (k : A → Mon St B) :
  preserves R m → (∀ a, preserves R (k a)) → preserves R (bind m k).
Proof.
  intros Hm Hk st. unfold bind. specialize (Hm st).
  destruct (m st) as [st1 [e|a]]; [exact Hm|].
  etransitivity; [exact Hm|apply Hk].
Qed.

Lemma preserves_for_range (body : nat → Mon St unit) (lo n : nat) :
  (∀ i, preserves R (body i)) → preserves R (for_range body lo n).
Proof.
  intros Hb. revert lo. induction n as [|n IH]; intros lo; cbn [for_range].
  - apply preserves_ret.
  - apply preserves_bind; [apply Hb|intros _; apply IH].
Qed.

End Preserves.

Lemma bind_inr {St A B : Type} (m : Mon St A) (k : A → Mon St B) st st' b :
  bind m k st = (st', inr b) ↔
  ∃ st1 a, m st = (st1, inr a) ∧ k a st1 = (st', inr b).
Proof.
  unfold bind. destruct (m st) as [st1 [e|a]]; split.
  - discriminate.
  - intros (? & ? & [=] & _).
  - eauto.
  - intros (? & ? & [= <- <-] & ?). done.
Qed.

(** A loop of [n + k] turns is the loop of the first [n] turns followed by
    the [k] remaining ones. *)
Lemma for_range_add {St : Type} (body : nat → Mon St unit) (lo n k : nat) st :
  for_range body lo (n + k) st =
  (for_range body lo n ;;; for_range body (lo + n) k) st.
Proof.
  revert lo st. induction n as [|n IH]; intros lo st; cbn [for_range Nat.add].
  - unfold bind, ret. by rewrite Nat.add_0_r.
  - unfold bind. destruct (body lo st) as [st1 [e|[]]]; [done|].
    rewrite IH. unfold bind. by rewrite Nat.add_succ_r.
Qed.

Lemma preserves_for_particles (R : State → State → Prop) `{!PreOrder R}
    (body : nat → M unit) :
  (∀ i, preserves R (body i)) → preserves R (for_particles body).
Proof.
  intros Hb. unfold for_particles. apply preserves_bind; [done|..].
  - apply preserves_gets; done.
  - intros n. apply preserves_for_range; done.
Qed.

Lemma preserves_weaken {St A : Type} (R R' : St → St → Prop) (m : Mon St A) :
  (∀ st st', R st st' → R' st st') → preserves R m → preserves R' m.
Proof. intros H Hm st. apply H, Hm. Qed.

(** The later of two points of a loop is related to the earlier one. *)
Lemma preserves_prefix {St : Type} (R : St → St → Prop) `{!PreOrder R}
    (body : nat → Mon St unit) (lo n k : nat) st :
  (∀ i, preserves R (body i)) →
  R (for_range body lo n st).1 (for_range body lo (n + k) st).1.
Proof.
  intros Hb. rewrite for_range_add. unfold bind.
  destruct (for_range body lo n st) as [st1 [e|[]]]; [reflexivity|].
  by apply preserves_for_range.
Qed.

(** Steps through a computation built from the monad's operations; what
    is left are the conditions on the state changes. *)
Ltac preserves_side :=
  lazymatch goal with
  | |- PreOrder _ => typeclasses eauto
  | |- ∀ _, _ => intro
  | _ => idtac
  end.

Ltac preserves_step :=
  lazymatch goal with
  | |- preserves _ (ret _) => apply preserves_ret; preserves_side
  | |- preserves _ (raise _) => apply preserves_raise; preserves_side
  | |- preserves _ (gets _) => apply preserves_gets; preserves_side
  | |- preserves _ (lift _) => apply preserves_lift; preserves_side
  | |- preserves _ (bind _ _) => apply preserves_bind; preserves_side
  | |- preserves _ (for_particles _) =>
      apply preserves_for_particles; preserves_side
  | |- preserves _ (for_range _ _ _) =>
      apply preserves_for_range; preserves_side
  | |- preserves _ (modify _) => apply preserves_modify; intro
  | |- preserves _ (match ?x with _ => _ end) => destruct x
  | |- preserves _ (let _ := _ in _) => cbv zeta
  end.

Ltac preserves_tac := repeat preserves_step.

(** ** The global best *)

#[local] Instance same_best_preorder : PreOrder same_best.
Proof.
  split.
  - intros st. by split.
  - intros a b c [? ?] [? ?]. split; congruence.
Qed.

#[local] Instance best_le_preorder : PreOrder best_le.
Proof.
  split.
  - intros st. apply Qcle_refl.
  - intros a b c. apply Qcle_trans.
Qed.

Lemma same_best_le st st' : same_best st st' → best_le st st'.
Proof. intros [H _]. unfold best_le. rewrite H. apply Qcle_refl. Qed.

Lemma emit_same_best e : preserves same_best (emit e).
Proof. unfold emit. preserves_tac. by split. Qed.

Lemma get_particle_same_best i : preserves same_best (get_particle i).
Proof. unfold get_particle. preserves_tac. Qed.

Lemma update_particle_same_best i f : preserves same_best (update_particle i f).
Proof. unfold update_particle. preserves_tac. by split. Qed.

Lemma random_same_best E : preserves same_best (random E).
Proof. unfold random. preserves_tac. by split. Qed.

Lemma decode_same_best x : preserves same_best (_pos_np2values_dict x).
Proof. unfold _pos_np2values_dict. preserves_tac. apply emit_same_best. Qed.

Lemma train_same_best E x d : preserves same_best (_train_model E x d).
Proof.
  unfold _train_model. preserves_tac; [apply emit_same_best|by split].
Qed.

Lemma init_same_best E : preserves same_best (_init_particles E).
Proof. unfold _init_particles. preserves_tac. by split. Qed.

Lemma eval_same_best E : preserves same_best (_eval_particles E).
Proof.
  unfold _eval_particles, eval_body. preserves_tac;
    auto using emit_same_best, get_particle_same_best, decode_same_best,
      train_same_best, update_particle_same_best.
Qed.

Lemma move_same_best E : preserves same_best (_move_particles E).
Proof.
  unfold _move_particles, move_body. preserves_tac;
    auto using get_particle_same_best, random_same_best,
      update_particle_same_best.
Qed.

(** What one turn of the loop of [_find_best_particle] does to the global
    best pair. *)
Lemma find_best_body_spec (i : nat) (st : State) :
  same_best st (find_best_body i st).1 ∨
  ∃ p s, p_list st !! i = Some p ∧ Particle.best_score p = Some s ∧
         (best_score st < s)%Qc ∧
         best_score (find_best_body i st).1 = s ∧
         best_pos (find_best_body i st).1 = Some (Particle.best_pos p).
Proof.
  unfold find_best_body, get_particle, bind, gets. cbn.
  destruct (p_list st !! i) as [p|] eqn:Hp; cbn; [|by left].
  destruct (Particle.best_score p) as [s|] eqn:Hs; cbn; [|by left].
  destruct (s ?= best_score st)%Qc eqn:Hc; cbn; try by left.
  right. exists p, s. split_and!; try done. by apply Qcgt_alt in Hc.
Qed.

Lemma find_best_le : preserves best_le _find_best_particle.
Proof.
  unfold _find_best_particle. apply preserves_for_particles; preserves_side.
  intros st. destruct (find_best_body_spec i st) as [H|(p & s & _ & _ & Hlt & Hs & _)].
  - by apply same_best_le.
  - unfold best_le. rewrite Hs. by apply Qclt_le_weak.
Qed.

Lemma step_best_le E i : preserves best_le (step E i).
Proof.
  unfold step. preserves_tac.
  - apply (preserves_weaken same_best); [apply same_best_le|apply emit_same_best].
  - apply (preserves_weaken same_best); [apply same_best_le|apply eval_same_best].
  - apply find_best_le.
  - apply (preserves_weaken same_best); [apply same_best_le|apply move_same_best].
Qed.

(** C3: over the turns of the loop of a run the global best score never
    decreases; the global best pair is overwritten only by
    [_find_best_particle], only when the score recorded in a particle is
    strictly greater than the global best score, and then the score and the
    position are replaced together; evaluating, moving, initialising,
    decoding and training leave the pair as it is. *)
Theorem C3_global_best_monotone (E : Env) :
  (∀ st lo n k,
     (best_score (for_range (step E) lo n st).1
      ≤ best_score (for_range (step E) lo (n + k) st).1)%Qc) ∧
  (∀ i st,
     same_best st (find_best_body i st).1 ∨
     ∃ p s, p_list st !! i = Some p ∧ Particle.best_score p = Some s ∧
            (best_score st < s)%Qc ∧
            best_score (find_best_body i st).1 = s ∧
            best_pos (find_best_body i st).1 = Some (Particle.best_pos p)) ∧
  (∀ st, same_best st (_eval_particles E st).1) ∧
  (∀ st, same_best st (_move_particles E st).1) ∧
  (∀ st, same_best st (_init_particles E st).1) ∧
  (∀ st x, same_best st (_pos_np2values_dict x st).1) ∧
  (∀ st x d, same_best st (_train_model E x d st).1).
Proof.
  split_and!.
  - intros st lo n k.
    apply (preserves_prefix best_le); preserves_side.
    apply step_best_le.
  - apply find_best_body_spec.
  - apply eval_same_best.
  - apply move_same_best.
  - apply init_same_best.
  - intros st x. apply decode_same_best.
  - intros st x d. apply train_same_best.
Qed.

(** ** Weakest preconditions *)

Section Wp.
Context {St : Type}.
Implicit Types (st : St) (X : St → Prop).

Lemma wp_ret {A : Type} (a : A) (Q : A → St → Prop) X st :
  Q a st → wp (ret a) Q X st.
Proof. done. Qed.

Lemma wp_raise {A : Type} (e : exn) (Q : A → St → Prop) X st :
  X st → wp (raise e) Q X st.
Proof. done. Qed.

Lemma wp_gets {A : Type} (f : St → A) (Q : A → St → Prop) X st :
  Q (f st) st → wp (gets f) Q X st.
Proof. done. Qed.

Lemma wp_modify (f : St → St) (Q : unit → St → Prop) X st :
  Q tt (f st) → wp (modify f) Q X st.
Proof. done. Qed.

Lemma wp_lift {A : Type} (r : exn + A) (Q : A → St → Prop) X st :
  match r with inl _ => X st | inr a => Q a st end → wp (lift r) Q X st.
Proof. by destruct r. Qed.

Lemma wp_bind {A B : Type} (m : Mon St A) (k : A → Mon St B)
    (Q : B → St → Prop) X st :
  wp m (λ a st', wp (k a) Q X st') X st → wp (bind m k) Q X st.
Proof. unfold wp, bind. by destruct (m st) as [st' [e|a]]. Qed.

Lemma wp_mono {A : Type} (m : Mon St A) (Q Q' : A → St → Prop) X X' st :
  wp m Q X st → (∀ a st', Q a st' → Q' a st') → (∀ st', X st' → X' st') →
  wp m Q' X' st.
Proof. unfold wp. destruct (m st) as [st' [e|a]]; auto. Qed.

(** A loop keeps an invariant that each of its turns keeps. *)
Lemma wp_for_range (I : St → Prop) (body : nat → Mon St unit) (lo n : nat)
    X st :
  I st → (∀ i st', I st' → wp (body i) (λ _, I) X st') →
  wp (for_range body lo n) (λ _, I) X st.
Proof.
  intros HI Hb. revert lo st HI.
  induction n as [|n IH]; intros lo st HI; cbn [for_range].
  - by apply wp_ret.
  - apply wp_bind. eapply wp_mono; [by apply Hb| |done].
    intros a st' HI'. by apply IH.
Qed.

Lemma wp_inv {A : Type} (m : Mon St A) (Q : A → St → Prop) X st st' r :
  wp m Q X st → m st = (st', r) →
  match r with inl _ => X st' | inr a => Q a st' end.
Proof. unfold wp. intros H Heq. by rewrite Heq in H. Qed.

End Wp.

Lemma wp_for_particles (I : State → Prop) (body : nat → M unit) X st :
  I st → (∀ i st', I st' → wp (body i) (λ _, I) X st') →
  wp (for_particles body) (λ _, I) X st.
Proof.
  intros HI Hb. unfold for_particles. apply wp_bind, wp_gets.
  by apply wp_for_range.
Qed.

(** One step of symbolic execution. *)
Ltac wp_step :=
  lazymatch goal with
  | |- wp (bind _ _) _ _ _ => apply wp_bind
  | |- wp (ret _) _ _ _ => apply wp_ret
  | |- wp (raise _) _ _ _ => apply wp_raise
  | |- wp (gets _) _ _ _ => apply wp_gets
  | |- wp (modify _) _ _ _ => apply wp_modify
  | |- wp (lift ?r) _ _ _ => apply wp_lift; destruct r eqn:?
  | |- wp (match ?x with _ => _ end) _ _ _ => destruct x eqn:?
  | |- wp (let _ := _ in _) _ _ _ => cbv zeta
  | |- wp (get_particle _) _ _ _ => unfold get_particle
  | |- wp (update_particle _ _) _ _ _ => unfold update_particle
  | |- wp (emit _) _ _ _ => unfold emit
  | |- wp (random _) _ _ _ => unfold random
  | |- wp (_pos_np2values_dict _) _ _ _ => unfold _pos_np2values_dict
  | |- wp (_train_model _ _ _) _ _ _ => unfold _train_model
  end; cbv beta.

Ltac wp_run := repeat wp_step.

(** Projections of updated states. *)
Ltac st_simpl :=
  cbn [ml_search_dict n_searches n_jobs n_particles best_score best_pos
       p_list random_calls position_calls train_calls log
       set_best set_p_list set_world] in *.

Lemma move_fields p p' :
  Particle.move p = inr p' →
  Particle.velo p' = Particle.velo p ∧
  Particle.best_pos p' = Particle.best_pos p ∧
  Particle.best_score p' = Particle.best_score p.
Proof.
  unfold Particle.move. destruct (np_add_int_float _ _); [done|].
  by intros [= <-].
Qed.

(** ** Runs in which no score is above zero *)

Lemma no_best_world r q t l st :
  no_best st → no_best (set_world r q t l st).
Proof. done. Qed.

Lemma eval_body_no_best E i st :
  (∀ k d, ((train_model E k d).1.1 ≤ Q2Qc 0)%Qc) →
  no_best st → wp (eval_body E i) (λ _, no_best) no_best st.
Proof.
  intros HE Hst. unfold eval_body. wp_run; try done.
  destruct Hst as (? & ? & Hl). split_and!; try done. cbn.
  apply Forall_alter; [done|]. intros p _ _ s [= <-]. apply HE.
Qed.

Lemma find_best_body_no_best i st :
  no_best st → wp (find_best_body i) (λ _, no_best) no_best st.
Proof.
  intros Hst. unfold find_best_body. wp_run; try done.
  destruct Hst as (_ & Hs & Hl). exfalso.
  match goal with H : _ !! i = Some ?p |- _ =>
    apply list_elem_of_lookup_2 in H; rewrite Forall_forall in Hl;
    specialize (Hl _ H) end.
  match goal with H : Particle.best_score _ = Some ?s |- _ =>
    specialize (Hl _ H) end.
  match goal with H : (_ ?= _)%Qc = Gt |- _ => apply Qcgt_alt in H end.
  rewrite Hs in *. by eapply Qcle_not_lt.
Qed.

Lemma move_body_no_best E i st :
  no_best st → wp (move_body E i) (λ _, no_best) no_best st.
Proof.
  intros Hst. unfold move_body. wp_run; st_simpl; try done.
  all: destruct Hst as (? & ? & ?); congruence.
Qed.

Lemma step_no_best E i st :
  (∀ k d, ((train_model E k d).1.1 ≤ Q2Qc 0)%Qc) →
  no_best st → wp (step E i) (λ _, no_best) no_best st.
Proof.
  intros HE Hst. unfold step. wp_run.
  unfold _eval_particles. eapply wp_mono; [apply (wp_for_particles no_best)| |done].
  { by apply no_best_world. }
  { intros. by apply eval_body_no_best. }
  intros a1 st1 H1. cbv beta in *. apply wp_bind.
  unfold _find_best_particle.
  eapply wp_mono; [apply (wp_for_particles no_best)| |done]; [done|..].
  { intros. by apply find_best_body_no_best. }
  intros a2 st2 H2. cbv beta in *. unfold _move_particles.
  apply wp_for_particles; [done|]. intros. by apply move_body_no_best.
Qed.

Lemma init_list_best_score E dim k n :
  Forall (λ p, Particle.best_score p = None) (init_list E dim k n).
Proof.
  revert k. induction n as [|n IH]; intros k; cbn [init_list]; constructor;
    [done|apply IH].
Qed.

Lemma init_no_best E st :
  best_pos st = None → best_score st = Q2Qc 0 →
  wp (_init_particles E) (λ _, no_best) no_best st.
Proof.
  intros Hp Hs. unfold _init_particles. wp_run. split_and!; try done.
  st_simpl. eapply Forall_impl; [apply init_list_best_score|].
  cbv beta. intros p -> s [=].
Qed.

Lemma run_no_best E st :
  (∀ k d, ((train_model E k d).1.1 ≤ Q2Qc 0)%Qc) →
  no_best st →
  wp (_start_particle_swarm_optimization E) (λ _ _, False) no_best st.
Proof.
  intros HE Hst. unfold _start_particle_swarm_optimization.
  do 6 wp_step; [done|]. wp_step.
  eapply wp_mono; [apply init_no_best; apply Hst| |done].
  intros a1 st1 H1. cbv beta in *. wp_step.
  eapply wp_mono; [apply (wp_for_range no_best); [done|]| |done].
  { intros i st' H'. by apply step_no_best. }
  intros a2 st2 H2. cbv beta in *.
  do 6 wp_step.
  destruct (best_pos st2) eqn:Hb.
  - destruct H2 as (? & _). congruence.
  - wp_step. done.
Qed.

(** C8: the global best score starts at [0] and is replaced only by a
    strictly greater score; in a run in which the training never returns a
    score above [0] the global best position is still [None] and the global
    best score still [0] when the run ends, and the run ends with an
    exception instead of a result. *)
Theorem C8_no_score_above_zero_no_best (E : Env) (space : search_space)
    (n_searches n_jobs : Z) (n_particles : nat) :
  (∀ k d, ((train_model E k d).1.1 ≤ Q2Qc 0)%Qc) →
  let r := _start_particle_swarm_optimization E
             (__init__ space n_searches n_particles n_jobs) in
  best_pos r.1 = None ∧ best_score r.1 = Q2Qc 0 ∧ ∃ e, r.2 = inl e.
Proof.
  intros HE r.
  assert (no_best (__init__ space n_searches n_particles n_jobs)) as H0.
  { by split_and!. }
  pose proof (run_no_best E _ HE H0) as Hwp. unfold wp in Hwp.
  fold r in Hwp. destruct r as [st' [e|a]]; [|done].
  destruct Hwp as (? & ? & _). eauto.
Qed.

(** A search space of one dimension with three values; every score is
    [-1]. *)
Lemma C8_no_score_above_zero_no_best_witness :
  let E := mkEnv (λ _, float_lit 1 2) (λ _, [1])
             (λ k _, (Q2Qc (-1 # 1), Q2Qc 0, k)) in
  let r := _start_particle_swarm_optimization E
             (__init__ [("x"%string, [PyInt 0; PyInt (-1); PyInt (-4)])]
                3 2 1) in
  best_pos r.1 = None ∧ best_score r.1 = Q2Qc 0 ∧ ∃ e, r.2 = inl e.
Proof.
  intros E. apply (C8_no_score_above_zero_no_best E).
  intros k d. vm_compute. congruence.
Defined.

(** ** The number of turns of the loop *)

(** A loop whose invariant follows the index. *)
Lemma wp_for_range_idx {St : Type} (I : nat → St → Prop)
    (body : nat → Mon St unit) (lo n : nat) (X : St → Prop) st :
  I lo st →
  (∀ i st', (lo ≤ i < lo + n)%nat → I i st' →
     wp (body i) (λ _, I (S i)) X st') →
  wp (for_range body lo n) (λ _, I (lo + n)%nat) X st.
Proof.
  revert lo st. induction n as [|n IH]; intros lo st HI Hb; cbn [for_range].
  - apply wp_ret. by rewrite Nat.add_0_r.
  - apply wp_bind. eapply wp_mono; [apply Hb; [lia|done]| |done].
    intros a st' HI'. cbv beta in *.
    replace (lo + S n)%nat with (S lo + n)%nat by lia.
    apply IH; [done|]. intros i st'' Hi. apply Hb. lia.
Qed.

Lemma preserves_wp {St A : Type} (R : St → St → Prop) (m : Mon St A) st :
  preserves R m → wp m (λ _, R st) (R st) st.
Proof. intros H. specialize (H st). unfold wp. by destruct (m st) as [? [?|?]]. Qed.

#[local] Instance same_steps_preorder : PreOrder same_steps.
Proof.
  split.
  - by intros st.
  - intros a b c. unfold same_steps. congruence.
Qed.

Lemma step_indices_app l k :
  step_indices (l ++ k) = step_indices l ++ step_indices k.
Proof. apply omap_app. Qed.

Lemma get_particle_same_steps i : preserves same_steps (get_particle i).
Proof. unfold get_particle. preserves_tac. Qed.

Lemma update_particle_same_steps i f :
  preserves same_steps (update_particle i f).
Proof. unfold update_particle. preserves_tac. done. Qed.

Lemma random_same_steps E : preserves same_steps (random E).
Proof. unfold random. preserves_tac. done. Qed.

Lemma eval_same_steps E : preserves same_steps (_eval_particles E).
Proof.
  unfold _eval_particles, eval_body, _pos_np2values_dict, _train_model, emit.
  preserves_tac;
    auto using get_particle_same_steps, update_particle_same_steps.
  all: unfold same_steps; st_simpl; rewrite ?step_indices_app; cbn;
    by rewrite ?app_nil_r.
Qed.

Lemma find_best_same_steps : preserves same_steps _find_best_particle.
Proof.
  unfold _find_best_particle, find_best_body. preserves_tac;
    auto using get_particle_same_steps. done.
Qed.

Lemma move_same_steps E :
  preserves same_steps (_move_particles E).
Proof.
  unfold _move_particles, move_body. preserves_tac;
    auto using get_particle_same_steps, update_particle_same_steps,
      random_same_steps.
Qed.

(** The turns shown by the log: all of them after the loop; up to the turn
    that raised if one did. *)
Lemma loop_step_indices E lo n st :
  step_indices (log st) = seq 0 lo →
  wp (for_range (step E) lo n)
    (λ _ st', step_indices (log st') = seq 0 (lo + n))
    (λ st', ∃ m, (lo ≤ m < lo + n)%nat ∧
                 step_indices (log st') = seq 0 (S m)) st.
Proof.
  intros H0.
  apply (wp_for_range_idx (λ i st', step_indices (log st') = seq 0 i)); [done|].
  intros i st1 Hi H1. unfold step. wp_run.
  set (st2 := set_world _ _ _ _ st1).
  assert (step_indices (log st2) = seq 0 (S i)) as H2.
  { unfold st2. st_simpl. rewrite step_indices_app, H1. cbn [step_indices omap].
    by rewrite seq_S. }
  clearbody st2.
  eapply wp_mono; [apply (preserves_wp same_steps), eval_same_steps|..];
    cbv beta.
  2:{ intros st' Hs. exists i. split; [lia|]. red in Hs. congruence. }
  intros _ st3 H3. wp_step.
  eapply wp_mono; [apply (preserves_wp same_steps), find_best_same_steps|..];
    cbv beta.
  2:{ intros st' Hs. exists i. split; [lia|]. red in Hs, H3. congruence. }
  intros _ st4 H4.
  eapply wp_mono; [apply (preserves_wp same_steps), move_same_steps|..];
    cbv beta.
  - intros _ st' Hs. red in Hs, H3, H4. congruence.
  - intros st' Hs. exists i. split; [lia|]. red in Hs, H3, H4. congruence.
Qed.

Lemma n_steps_of_quot ns nj : nj ≠ 0 → n_steps_of ns nj = inr (ns `quot` nj).
Proof. intros Hj. unfold n_steps_of. by rewrite decide_False. Qed.

(** A run is the loop on the swarm that [_init_particles] creates, then
    the decoding and the training of the global best position; an exception
    in the loop ends the run. *)
Lemma run_eq E st n :
  n_steps_of (n_searches st) (n_jobs st) = inr n →
  _start_particle_swarm_optimization E st =
  match for_range (step E) 0 (Z.to_nat n) (_init_particles E st).1 with
  | (st', inl e) => (st', inl e)
  | (st', inr _) =>
      (best <- gets best_pos ;;
       hyperpara_dict_best <- _pos_np2values_dict best ;;
       r <- _train_model E (default [] best) hyperpara_dict_best ;;
       ret (r.2, r.1.1, hyperpara_dict_best, r.1.2)) st'
  end.
Proof.
  intros Hn. unfold _start_particle_swarm_optimization.
  unfold bind at 1, gets at 1. unfold bind at 1, gets at 1.
  unfold bind at 1. rewrite Hn. unfold lift at 1, ret at 1.
  unfold bind at 1, _init_particles at 1, modify at 1.
  unfold bind at 1. reflexivity.
Qed.

Lemma finish_same_steps E :
  preserves same_steps
    (best <- gets best_pos ;;
     hyperpara_dict_best <- _pos_np2values_dict best ;;
     r <- _train_model E (default [] best) hyperpara_dict_best ;;
     ret (r.2, r.1.1, hyperpara_dict_best, r.1.2)).
Proof.
  unfold _pos_np2values_dict, _train_model, emit. preserves_tac; try done.
  all: unfold same_steps; st_simpl; rewrite ?step_indices_app; cbn;
    by rewrite ?app_nil_r.
Qed.

(** C10: the loop of a run is set up for [int(n_searches / n_jobs)] turns,
    the quotient with its fraction dropped, which is the floor of the
    quotient for [0 <= n_searches] and [0 < n_jobs]; a negative number gives
    no turn.  The turns are started in their order, and nothing after the
    loop starts another one.  If no turn raises, all of them are made; if
    the turn [m] raises, the turns up to [m] were started and the run ends
    with this exception.  For [0 <= n_searches < n_jobs] no turn is made,
    the model training is never called, and the run ends with an exception
    in the attempt to decode the unset ([None]) best position. *)
Theorem C10_steps_truncated_division (E : Env) (space : search_space)
    (ns nj : Z) (np : nat) :
  nj ≠ 0 → Z.abs ns < 2 ^ 53 → Z.abs nj < 2 ^ 53 →
  let n := Z.to_nat (ns `quot` nj) in
  let st1 := (_init_particles E (__init__ space ns np nj)).1 in
  let loop := for_range (step E) 0 n st1 in
  let r := _start_particle_swarm_optimization E (__init__ space ns np nj) in
  n_steps_of ns nj = inr (ns `quot` nj) ∧
  (0 ≤ ns → 0 < nj → ns `quot` nj = ns `div` nj) ∧
  step_indices (log r.1) = step_indices (log loop.1) ∧
  (loop.2 = inr tt → step_indices (log loop.1) = seq 0 n) ∧
  (∀ e, loop.2 = inl e →
     r = (loop.1, inl e) ∧
     ∃ m, (m < n)%nat ∧ step_indices (log loop.1) = seq 0 (S m)) ∧
  (0 ≤ ns < nj →
     log r.1 = [Decode None] ∧ train_calls r.1 = 0%nat ∧ ∃ e, r.2 = inl e).
Proof.
  intros Hj _ _ n st1 loop r.
  pose proof (n_steps_of_quot ns nj Hj) as Hn.
  pose proof (run_eq E (__init__ space ns np nj) _ Hn) as Hr.
  fold r n st1 loop in Hr.
  pose proof (loop_step_indices E 0 n st1 eq_refl) as Hwp.
  unfold wp in Hwp. fold loop in Hwp.
  split_and!.
  - done.
  - intros Hs Hj'. by apply Z.quot_div_nonneg.
  - rewrite Hr. destruct loop as [st' [e|[]]]; [done|]. apply finish_same_steps.
  - destruct loop as [st' [e|[]]]; [done|]. intros _. exact Hwp.
  - intros e He. destruct loop as [st' [e'|[]]]; [|done].
    cbn in He. injection He as ->. split; [done|].
    destruct Hwp as (m & Hm & Hi). exists m. split; [lia|done].
  - intros Hlt. rewrite Hr.
    assert (n = 0%nat) as Hn0 by (unfold n; by rewrite Z.quot_small by lia).
    unfold loop. rewrite Hn0. cbn. eauto.
Qed.

(** Seven searches on two jobs: three turns. *)
Lemma C10_steps_truncated_division_witness :
  let E := mkEnv (λ _, float_lit 1 2) (λ _, [1])
             (λ k _, (Q2Qc (1 # 1), Q2Qc 0, k)) in
  let r := _start_particle_swarm_optimization E
             (__init__ [("x"%string, [PyInt 0; PyInt 1])] 7 2 2) in
  n_steps_of 7 2 = inr 3 ∧
  step_indices (log r.1) = [0; 1; 2]%nat.
Proof.
  intros E.
  destruct (C10_steps_truncated_division E [("x"%string, [PyInt 0; PyInt 1])]
              7 2 2 ltac:(lia) ltac:(lia) ltac:(lia)) as (H1 & _ & H3 & H4 & _).
  split; [exact H1|]. etrans; [exact H3|]. apply H4.
  vm_compute. reflexivity.
Defined.

(** [n_searches < n_jobs] does not keep the loop from running: with [-7]
    searches on [-2] jobs the quotient is [3.5], three turns are made, the
    model training is called four times on one particle, and the run
    returns. *)
Lemma C10_counterexample :
  let E := mkEnv (λ _, float_lit 1 2) (λ _, [1])
             (λ k _, (Q2Qc (1 # 1), Q2Qc 0, k)) in
  let r := _start_particle_swarm_optimization E
             (__init__ [("x"%string, [PyInt 0; PyInt 1])] (-7) 1 (-2)) in
  -7 < -2 ∧
  step_indices (log r.1) = [0; 1; 2]%nat ∧
  length (trained (log r.1)) = 4%nat ∧
  ∃ a, r.2 = inr a.
Proof. vm_compute. split_and!; [done..|]. eexists. reflexivity. Qed.

(** ** [Hyperactive.search] *)

Lemma add_hlog_nil h : add_hlog [] h = h.
Proof. destruct h. unfold add_hlog. cbn. by rewrite app_nil_r. Qed.

Lemma add_hlog_add l k h : add_hlog k (add_hlog l h) = add_hlog (l ++ k) h.
Proof. unfold add_hlog. cbn. by rewrite app_assoc. Qed.

Lemma for_range_emit (f : nat → hyper_event) lo n h :
  for_range (λ job, Hyperactive.emit (f job)) lo n h
  = (add_hlog (f <$> seq lo n) h, inr tt).
Proof.
  revert lo h. induction n as [|n IH]; intros lo h; cbn [for_range seq fmap list_fmap].
  - by rewrite add_hlog_nil.
  - unfold bind. unfold Hyperactive.emit at 1. unfold modify at 1.
    rewrite IH. f_equal. unfold add_hlog. cbn. by rewrite <- !app_assoc.
Qed.

Lemma submit_jobs_eq c n h :
  Hyperactive.submit_jobs c n h
  = (add_hlog ((RemoteActor c <$> seq 0 n) ++ (RemoteSearch <$> seq 0 n)) h,
     inr tt).
Proof.
  unfold Hyperactive.submit_jobs, bind. rewrite !for_range_emit.
  by rewrite add_hlog_add.
Qed.

Section BindEquations.
Context {St : Type}.

Lemma bind_ret_eq {A B : Type} (a : A) (k : A → Mon St B) st :
  bind (ret a) k st = k a st.
Proof. done. Qed.

Lemma bind_gets_eq {A B : Type} (f : St → A) (k : A → Mon St B) st :
  bind (gets f) k st = k (f st) st.
Proof. done. Qed.

Lemma bind_modify_eq {B : Type} (f : St → St) (k : unit → Mon St B) st :
  bind (modify f) k st = k tt (f st).
Proof. done. Qed.

Lemma bind_raise_eq {A B : Type} (e : exn) (k : A → Mon St B) st :
  bind (raise e) k st = (st, inl e).
Proof. done. Qed.

Lemma bind_assoc {A B C : Type} (m : Mon St A) (k : A → Mon St B)
    (k' : B → Mon St C) st :
  bind (bind m k) k' st = bind m (λ a, bind (k a) k') st.
Proof. unfold bind. by destruct (m st) as [? [?|?]]. Qed.

Lemma bind_eq {A B : Type} (m : Mon St A) (k : A → Mon St B) st st' a :
  m st = (st', inr a) → bind m k st = k a st'.
Proof. unfold bind. by intros ->. Qed.

End BindEquations.

Ltac bind_run :=
  repeat first
    [ rewrite bind_assoc | rewrite bind_ret_eq | rewrite bind_gets_eq
    | rewrite bind_modify_eq | rewrite bind_raise_eq ].

(** The [ray_] branch on an object that has no [_optimizer_] attribute:
    every remote call is made, and the state and the exception are these. *)
Lemma search_ray_eq (W : Hyperactive.World) (call : search_call)
    (m : MainArgs.t) (c : optimizer_class) (h : Hyperactive.t) :
  Hyperactive.ray W = RayInstalled true →
  Hyperactive.search_args W (Hyperactive._main_args_ h) call = inr m →
  Hyperactive.optimizer_dict h !! MainArgs.optimizer m = Some c →
  Hyperactive._optimizer_ h = None →
  let n := Z.to_nat (MainArgs.n_jobs m) in
  let a := Hyperactive.new_Arguments W (MainArgs.opt_para m) in
  Hyperactive.search W call h =
  (add_hlog ((RemoteActor c <$> seq 0 n) ++ (RemoteSearch <$> seq 0 n)
             ++ [RayGet n])
     (Hyperactive.set_opt_args a
        (Hyperactive.set_main_args m
           (Hyperactive.set_time_calls (S (Hyperactive.time_calls h)) h))),
   inl match Hyperactive.collect
               (Hyperactive.remote_search W c m a <$> seq 0 n) with
       | inl e => e
       | inr _ => AttributeError
       end).
Proof.
  intros Hray Hargs Hdict Hnone n a.
  unfold Hyperactive.search, Hyperactive.now, Hyperactive.detect_ray.
  bind_run.
  cbn [Hyperactive._main_args_ Hyperactive.set_time_calls].
  rewrite Hargs. unfold lift at 1. bind_run.
  cbn [Hyperactive.optimizer_dict Hyperactive.set_main_args
       Hyperactive.set_opt_args Hyperactive.set_time_calls].
  rewrite Hdict. unfold Hyperactive.getitem at 1. rewrite Hray. bind_run.
  rewrite (bind_eq _ _ _ _ _ (submit_jobs_eq _ _ _)).
  unfold Hyperactive.ray_get, Hyperactive.emit. bind_run.
  fold n a.
  destruct (Hyperactive.collect _) as [e|vs]; unfold lift at 1; bind_run.
  - f_equal. unfold add_hlog. cbn. by rewrite <- !app_assoc.
  - cbn [Hyperactive._optimizer_ add_hlog Hyperactive.set_opt_args
         Hyperactive.set_main_args Hyperactive.set_time_calls].
    rewrite Hnone. unfold Hyperactive.getattr at 1. bind_run.
    f_equal. unfold add_hlog. cbn. rewrite ?Hnone. by rewrite <- !app_assoc.
Qed.

(** C9: with ray initialised, [search] on a fresh [Hyperactive] object
    starts one remote instance and one remote search per job and waits for
    them, but assigns no [_optimizer_]: once the remote jobs have returned,
    reading [self._optimizer_] raises an [AttributeError], and neither the
    results nor the total time are ever stored in the object. *)
Theorem C9_ray_search_attribute_error (W : Hyperactive.World) (X y : pyobj)
    (memory : bool) (random_state verbosity : Z) (warnings : bool)
    (call : search_call) (m : MainArgs.t) (c : optimizer_class)
    (vs : list pyobj) :
  let h := Hyperactive.__init__ W X y memory random_state verbosity warnings in
  let n := Z.to_nat (MainArgs.n_jobs m) in
  let a := Hyperactive.new_Arguments W (MainArgs.opt_para m) in
  Hyperactive.ray W = RayInstalled true →
  Hyperactive.search_args W (Hyperactive._main_args_ h) call = inr m →
  Hyperactive.optimizer_dict h !! MainArgs.optimizer m = Some c →
  Hyperactive.collect (Hyperactive.remote_search W c m a <$> seq 0 n)
    = inr vs →
  let r := Hyperactive.search W call h in
  r.2 = inl AttributeError ∧
  Hyperactive._optimizer_ r.1 = None ∧
  Hyperactive.results_params r.1 = None ∧
  Hyperactive.results_models r.1 = None ∧
  Hyperactive.pos_list r.1 = None ∧
  Hyperactive.score_list r.1 = None ∧
  Hyperactive.total_time r.1 = None ∧
  Hyperactive.hlog r.1 =
    (RemoteActor c <$> seq 0 n) ++ (RemoteSearch <$> seq 0 n) ++ [RayGet n].
Proof.
  intros h n a Hray Hargs Hdict Hvs r. subst r.
  rewrite (search_ray_eq W call m c h Hray Hargs Hdict eq_refl).
  fold n a. rewrite Hvs. by split_and!.
Qed.

(** Two jobs of the particle swarm optimizer on an initialised ray. *)
Lemma C9_ray_search_attribute_error_witness :
  let W := Hyperactive.mkWorld (λ k, Qc_of_Z (Z.of_nat k)) (RayInstalled true)
             (λ _ _ _ _ _, MainArgs.mk 0%nat "RandomSearch" 1)
             (λ _ _, inr (MainArgs.mk 7%nat "ParticleSwarm" 2))
             (λ p, p)
             (λ _ _ _, inl TypeError)
             (λ o, (o, None))
             (λ _ _ _ job, inr job) in
  let r := Hyperactive.search W (mkSearchCall 0%nat 10 None 1%nat 2 0%nat 0%nat)
             (Hyperactive.__init__ W 0%nat 0%nat true 1 3 false) in
  r.2 = inl AttributeError ∧ Hyperactive._optimizer_ r.1 = None ∧
  Hyperactive.results_params r.1 = None ∧
  Hyperactive.hlog r.1 =
    [RemoteActor ParticleSwarmOptimizer 0%nat;
     RemoteActor ParticleSwarmOptimizer 1%nat;
     RemoteSearch 0%nat; RemoteSearch 1%nat; RayGet 2%nat].
Proof.
  intros W.
  destruct (C9_ray_search_attribute_error W 0%nat 0%nat true 1 3 false
              (mkSearchCall 0%nat 10 None 1%nat 2 0%nat 0%nat)
              (MainArgs.mk 7%nat "ParticleSwarm" 2) ParticleSwarmOptimizer
              [0%nat; 1%nat] eq_refl eq_refl eq_refl eq_refl)
    as (H1 & H2 & H3 & _ & _ & _ & _ & H8).
  by split_and!.
Defined.

(** ** Positions at the evaluation boundary *)

Lemma valid_pos_length space x : valid_pos space x → length x = length space.
Proof. apply Forall2_length. Qed.

Lemma _limit_pos_valid space x :
  valid_space space → length x = length space →
  valid_pos space (_limit_pos space x).
Proof.
  unfold valid_space, valid_pos, _limit_pos. intros Hs. revert x.
  induction Hs as [|d space Hd Hs IH]; intros [|i x] Hlen; try done;
    cbn [zip_with]; constructor.
  - lia.
  - apply IH. by injection Hlen.
Qed.

(** Clamping leaves a valid position as it is. *)
Lemma _limit_pos_id space x : valid_pos space x → _limit_pos space x = x.
Proof.
  unfold valid_pos, _limit_pos. induction 1 as [|i d x space Hi Hx IH];
    cbn [zip_with]; [done|]. rewrite IH. f_equal. lia.
Qed.

(** Decoding a valid position does not fail. *)
Lemma decode_valid space x :
  valid_pos space x → ∃ d, decode space x = inr d.
Proof.
  unfold valid_pos. induction 1 as [|i d x space Hi Hx IH]; cbn [decode].
  - by eexists.
  - rewrite decide_True by lia. destruct IH as [a ->].
    destruct (d.2 !! Z.to_nat i) eqn:Hl; [by eexists|].
    apply lookup_ge_None in Hl. lia.
Qed.

Lemma np_broadcast_length {A B C : Type} (f : A → B → C) a b c :
  length a = length b → np_broadcast f a b = inr c → length c = length a.
Proof.
  intros Hl. rewrite np_broadcast_same by done. intros [= <-].
  rewrite length_zip_with. lia.
Qed.

Lemma init_list_ok E space k n :
  valid_env space E →
  Forall (particle_ok space) (init_list E (length space) k n).
Proof.
  intros [_ Hp]. revert k. induction n as [|n IH]; intros k; cbn [init_list];
    constructor; [|apply IH].
  split_and!; cbn.
  - by apply valid_pos_length.
  - unfold np_zeros. by rewrite length_replicate.
  - done.
Qed.

Lemma particle_ok_lookup space l i p :
  Forall (particle_ok space) l → l !! i = Some p → particle_ok space p.
Proof. intros Hl Hp. eapply Forall_lookup_1; eauto. Qed.

Lemma eval_body_safe E space i st :
  valid_space space →
  safe space st → wp (eval_body E i) (λ _, safe space) (safe space) st.
Proof.
  intros Hs (Hsp & Hlog & Hg & Hl). unfold eval_body.
  wp_run; unfold safe; st_simpl; split_and!; try done.
  all: try (match goal with H : _ !! _ = Some ?p |- _ =>
              pose proof (particle_ok_lookup _ _ _ _ Hl H) as (Hp1 & Hp2 & Hp3)
            end).
  all: try (apply Forall_alter; [done|]; by intros []).
  all: rewrite ?Forall_app, ?Forall_singleton; split_and!; try done; cbn.
  all: rewrite ?Hsp in *; try by apply _limit_pos_valid.
  split; [by apply _limit_pos_valid|done].
Qed.

Lemma find_best_body_safe space i st :
  safe space st → wp (find_best_body i) (λ _, safe space) (safe space) st.
Proof.
  intros (Hsp & Hlog & Hg & Hl). unfold find_best_body.
  wp_run; unfold safe; st_simpl; split_and!; try done.
  intros g [= <-].
  match goal with H : _ !! _ = Some ?p |- _ =>
    by destruct (particle_ok_lookup _ _ _ _ Hl H) as (_ & _ & ?) end.
Qed.

Lemma move_ok space p p' :
  particle_ok space p → Particle.move p = inr p' → particle_ok space p'.
Proof.
  intros (H1 & H2 & H3). unfold Particle.move, np_add_int_float.
  destruct (np_broadcast _ _ _) as [e|s] eqn:Hs; [done|]. intros [= <-].
  apply np_broadcast_length in Hs; [|congruence].
  split_and!; cbn; [|done..]. rewrite length_fmap. congruence.
Qed.

(** The new velocity of a particle has the length of its arrays. *)
Lemma new_velocity_length space (W k1 k2 : float) p g d1 d2 AB v :
  particle_ok space p → valid_pos space g →
  np_subtract (Particle.best_pos p) (Particle.pos p) = inr d1 →
  np_subtract g (Particle.pos p) = inr d2 →
  np_add (np_scale W (Particle.velo p)) (np_scale_int k1 d1) = inr AB →
  np_add AB (np_scale_int k2 d2) = inr v →
  length v = length space.
Proof.
  intros (H1 & H2 & H3) Hg Hd1 Hd2 HAB Hv.
  apply valid_pos_length in H3, Hg.
  apply np_broadcast_length in Hd1; [|lia].
  apply np_broadcast_length in Hd2; [|lia].
  unfold np_add, np_scale, np_scale_int in *.
  apply np_broadcast_length in HAB; [|rewrite !length_fmap; lia].
  rewrite length_fmap in HAB.
  apply np_broadcast_length in Hv; [|rewrite !length_fmap; lia].
  lia.
Qed.

Lemma move_body_safe E space i st :
  safe space st →
  wp (move_body E i) (λ _, safe space) (safe space) st.
Proof.
  intros (Hsp & Hlog & Hg & Hl). unfold move_body.
  wp_run; unfold safe; st_simpl; split_and!; try done.
  all: match goal with H : p_list _ !! _ = Some ?p |- _ =>
         pose proof (particle_ok_lookup _ _ _ _ Hl H) as Hp end.
  all: match goal with
       | Hd1 : np_subtract _ _ = inr _, Hb : best_pos _ = Some ?g,
         Hd2 : np_subtract ?g _ = inr _, HAB : np_add _ _ = inr _,
         Hv : np_add _ _ = inr ?v |- _ =>
           pose proof (new_velocity_length _ _ _ _ _ _ _ _ _ _ Hp (Hg _ Hb)
                         Hd1 Hd2 HAB Hv) as Hlen
       end.
  all: match goal with
       | Hv : np_add _ (np_scale_int _ _) = inr ?v,
         Ht : p_list _ !! _ = Some ?t |- _ =>
           assert (Forall (particle_ok space)
                     (alter (Particle.set_velo v) i (p_list st))) as Hl'
             by (apply Forall_alter; [done|];
                 intros q Hq (? & ? & ?); assert (q = t) as -> by congruence;
                 by split_and!)
       end.
  all: try done.
  apply Forall_alter; [done|]. intros q Hq _.
  eapply move_ok; [|done].
  eapply particle_ok_lookup; [exact Hl'|].
  match goal with H : alter _ _ _ !! _ = Some _ |- _ => exact H end.
Qed.

Lemma step_safe E space i st :
  valid_space space →
  safe space st → wp (step E i) (λ _, safe space) (safe space) st.
Proof.
  intros Hs Hst. unfold step. wp_run.
  assert (safe space (set_world (random_calls st) (position_calls st)
            (train_calls st) (log st ++ [PrintStep i]) st)) as H0.
  { destruct Hst as (? & ? & ? & ?). unfold safe. st_simpl. split_and!; try done.
    rewrite Forall_app, Forall_singleton. done. }
  unfold _eval_particles.
  eapply wp_mono; [apply (wp_for_particles (safe space));
                     [done|intros; by apply eval_body_safe]| |done].
  intros a1 st1 H1. cbv beta in *. apply wp_bind. unfold _find_best_particle.
  eapply wp_mono; [apply (wp_for_particles (safe space));
                     [done|intros; by apply find_best_body_safe]| |done].
  intros a2 st2 H2. cbv beta in *. unfold _move_particles.
  apply wp_for_particles; [done|intros; by apply move_body_safe].
Qed.

Lemma run_safe E space st :
  valid_space space → valid_env space E → safe space st →
  wp (_start_particle_swarm_optimization E)
    (λ _, safe space) (safe space) st.
Proof.
  intros Hs HE Hst.
  unfold _start_particle_swarm_optimization.
  do 6 wp_step; [done|].
  wp_step. unfold _init_particles. wp_step.
  set (st1 := set_world _ _ _ _ _).
  assert (safe space st1) as H1.
  { destruct Hst as (Hsp & ? & ? & ?).
    unfold st1, safe. st_simpl. split_and!; try done.
    rewrite Hsp. by apply init_list_ok. }
  clearbody st1. wp_step.
  eapply wp_mono; [apply (wp_for_range (safe space)); [done|]| |done].
  { intros i st' H'. by apply step_safe. }
  intros a2 st2 H2. cbv beta in *.
  destruct H2 as (Hsp2 & Hlog2 & Hg2 & Hl2).
  wp_run; unfold safe; st_simpl; split_and!; try done.
  all: rewrite ?Forall_app, ?Forall_singleton; split_and?; try done; cbn.
  all: try (match goal with H : best_pos _ = Some _ |- _ => by apply Hg2 end).
  all: try (intros g Hgg; apply Hg2; congruence).
  split; [by apply Hg2|congruence].
Qed.

(** C5: on a search space whose dimensions all have a value, every position
    that a run hands to the decoding or to the model training has one valid
    index per dimension (clamping would leave it as it is) and can be
    decoded, the final position included; what is trained is the decoding of
    such a position. *)
Theorem C5_positions_in_range (E : Env) (space : search_space)
    (ns nj : Z) (np : nat) :
  valid_space space → valid_env space E →
  let r := _start_particle_swarm_optimization E (__init__ space ns np nj) in
  (∀ x, Decode (Some x) ∈ log r.1 →
     valid_pos space x ∧ _limit_pos space x = x ∧
     ∃ d, decode space x = inr d) ∧
  (∀ x d, Train x d ∈ log r.1 →
     valid_pos space x ∧ _limit_pos space x = x ∧ decode space x = inr d).
Proof.
  intros Hs HE r.
  assert (safe space (__init__ space ns np nj)) as H0.
  { unfold safe. cbn. by split_and!. }
  pose proof (run_safe E space _ Hs HE H0) as Hwp. unfold wp in Hwp.
  fold r in Hwp.
  assert (Forall (event_valid space) (log r.1)) as Hlog.
  { destruct r as [st' [e|a]]; by destruct Hwp as (_ & ? & _). }
  rewrite Forall_forall in Hlog. split.
  - intros x Hx. specialize (Hlog _ Hx). cbn in Hlog.
    split_and!; [done|by apply _limit_pos_id|by apply decode_valid].
  - intros x d Hx. destruct (Hlog _ Hx) as [? ?].
    split_and!; [done|by apply _limit_pos_id|done].
Qed.

(** One particle on a dimension of three values, two turns: the particle
    stays at index [1]; its best position, index [2], becomes the global
    best position and is decoded and trained at the end. *)
Lemma C5_positions_in_range_witness :
  let space := [("x"%string, [PyInt 10; PyInt 20; PyInt 30])] in
  let E' := mkEnv (λ _, float_lit 1 2) (λ k, [Z.of_nat (S k `mod` 3)])
             (λ k _, (Q2Qc (1 # 1), Q2Qc 0, k)) in
  let r := _start_particle_swarm_optimization E' (__init__ space 2 1 1) in
  valid_pos space [2] ∧ _limit_pos space [2] = [2] ∧
  decode space [2] = inr [("x"%string, PyInt 30)].
Proof.
  intros space E' r.
  assert (valid_space space) as Hs.
  { repeat constructor. }
  assert (valid_env space E') as HE.
  { split.
    - intros k. split; vm_compute; congruence.
    - intros k. repeat constructor; cbn.
      + lia.
      + pose proof (Nat.mod_upper_bound (S k) 3). lia. }
  apply (proj2 (C5_positions_in_range E' space 2 1 1 Hs HE)).
  assert (log r.1 =
            [PrintStep 0; PrintPos [1]; Decode (Some [1]);
             Train [1] [("x"%string, PyInt 20)];
             PrintStep 1; PrintPos [1]; Decode (Some [1]);
             Train [1] [("x"%string, PyInt 20)];
             Decode (Some [2]); Train [2] [("x"%string, PyInt 30)]]) as Hl
    by (vm_compute; reflexivity).
  fold r. rewrite Hl. repeat constructor.
Defined.

(** ** The number of calls of the model training *)

Lemma trained_app l k : trained (l ++ k) = trained l ++ trained k.
Proof. apply omap_app. Qed.

Lemma eval_body_counted E c n i st :
  counted c n st →
  wp (eval_body E i) (λ _, counted (S c) n) (λ _, True) st.
Proof.
  intros (Hc & Hn & Hl). unfold eval_body. wp_run; try done.
  unfold counted. st_simpl. rewrite length_alter, !trained_app, !length_app.
  cbn. split_and!; [by f_equal|done|lia].
Qed.

Lemma find_best_body_counted c n i st :
  counted c n st →
  wp (find_best_body i) (λ _, counted c n) (λ _, True) st.
Proof. intros Hst. unfold find_best_body. wp_run; done. Qed.

Lemma move_body_counted E c n i st :
  counted c n st →
  wp (move_body E i) (λ _, counted c n) (λ _, True) st.
Proof.
  intros (Hc & Hn & Hl). unfold move_body. wp_run; try done.
  unfold counted. st_simpl. by rewrite !length_alter.
Qed.

Lemma for_particles_counted (body : nat → M unit) (d c n : nat) st :
  (∀ c i st', counted c n st' →
     wp (body i) (λ _, counted (d + c) n) (λ _, True) st') →
  counted c n st →
  wp (for_particles body) (λ _, counted (n * d + c) n) (λ _, True) st.
Proof.
  intros Hb Hst. unfold for_particles. wp_step. wp_step.
  destruct Hst as (Hc & Hn & Hl). rewrite Hn.
  eapply wp_mono;
    [apply (wp_for_range_idx (λ k, counted (k * d + c) n))| |done].
  - done.
  - intros i st' _ Hi. eapply wp_mono; [by apply Hb| |done].
    intros a'' st'' H''. cbv beta in *.
    by replace (S i * d + c)%nat with (d + (i * d + c))%nat by lia.
  - intros a' st' H'. by rewrite Nat.add_0_l in H'.
Qed.

Lemma step_counted E c n i st :
  counted c n st →
  wp (step E i) (λ _, counted (n + c) n) (λ _, True) st.
Proof.
  intros Hst. unfold step. wp_run.
  assert (counted c n (set_world (random_calls st) (position_calls st)
            (train_calls st) (log st ++ [PrintStep i]) st)) as H0.
  { destruct Hst as (? & ? & ?). unfold counted. st_simpl.
    rewrite trained_app. cbn. by rewrite app_nil_r. }
  eapply wp_mono; [apply (for_particles_counted _ 1 c n); [|done]| |done].
  { intros. by apply eval_body_counted. }
  intros a1 st1 H1. cbv beta in *. rewrite Nat.mul_1_r in H1. wp_step.
  eapply wp_mono; [apply (for_particles_counted _ 0 (n + c) n); [|done]| |done].
  { intros. by apply find_best_body_counted. }
  intros a2 st2 H2. cbv beta in *. rewrite Nat.mul_0_r, Nat.add_0_l in H2.
  eapply wp_mono;
    [apply (for_particles_counted _ 0 (n + c) n); [|done]| |done].
  { intros. by apply move_body_counted. }
  intros a3 st3 H3. cbv beta in *. by rewrite Nat.mul_0_r, Nat.add_0_l in H3.
Qed.

Lemma init_list_length E dim k n : length (init_list E dim k n) = n.
Proof.
  revert k. induction n as [|n IH]; intros k; cbn [init_list length];
    [done|by rewrite IH].
Qed.

Lemma run_counted E st :
  train_calls st = 0%nat → log st = [] →
  wp (_start_particle_swarm_optimization E)
    (λ _, counted
            (Z.to_nat (n_searches st `quot` n_jobs st) * n_particles st + 1)
            (n_particles st))
    (λ _, True) st.
Proof.
  intros Hc Hl. unfold _start_particle_swarm_optimization.
  do 5 wp_step. apply wp_lift. unfold n_steps_of.
  destruct (decide (n_jobs st = 0)); [done|].
  wp_step. unfold _init_particles. wp_step.
  set (st1 := set_world _ _ _ _ _).
  assert (counted 0 (n_particles st) st1) as H1.
  { unfold st1, counted. st_simpl. rewrite init_list_length, Hl. done. }
  clearbody st1. wp_step.
  set (N := Z.to_nat _).
  eapply wp_mono;
    [apply (wp_for_range_idx (λ k, counted (k * n_particles st) (n_particles st)));
       [done|]| |done].
  { intros i st' _ Hi.
    eapply wp_mono; [by apply step_counted| |done].
    intros a'' st'' H''. cbv beta in *.
    by replace (S i * n_particles st)%nat
         with (n_particles st + i * n_particles st)%nat by lia. }
  intros a2 st2 (H2c & H2n & H2l). cbv beta in *.
  wp_run; try done. unfold counted. st_simpl.
  rewrite !trained_app, !length_app. cbn. rewrite H2c, H2l.
  split_and!; [lia|done|lia].
Qed.

(** C4, as the code has it: a run that returns has called the model
    training once for every particle in every turn of the loop and once more
    for the global best position at the end, whether or not a position was
    trained before; every call is in the log, and no stored result is ever
    used in its place. *)
Theorem C4_training_called_on_every_visit (E : Env) (space : search_space)
    (ns nj : Z) (np : nat) a :
  let r := _start_particle_swarm_optimization E (__init__ space ns np nj) in
  r.2 = inr a →
  train_calls r.1 = (Z.to_nat (ns `quot` nj) * np + 1)%nat ∧
  length (trained (log r.1)) = train_calls r.1.
Proof.
  intros r Hr.
  pose proof (run_counted E (__init__ space ns np nj) eq_refl eq_refl) as Hwp.
  unfold wp in Hwp. fold r in Hwp. destruct r as [st' [e|a']]; [done|].
  destruct Hwp as (Hc & _ & Hl). cbn in *. by rewrite Hl, Hc.
Qed.

(** One particle that never leaves index [1], two turns: three calls of the
    model training on the same position. *)
Lemma C4_training_called_on_every_visit_witness :
  let E := mkEnv (λ _, float_lit 1 2) (λ _, [1])
             (λ k _, (Q2Qc (1 # 1), Q2Qc 0, k)) in
  let r := _start_particle_swarm_optimization E
             (__init__ [("x"%string, [PyInt 10; PyInt 20])] 2 1 1) in
  train_calls r.1 = 3%nat ∧ length (trained (log r.1)) = train_calls r.1.
Proof.
  intros E.
  apply (C4_training_called_on_every_visit E
           [("x"%string, [PyInt 10; PyInt 20])] 2 1 1
           (2%nat, Q2Qc (1 # 1), [("x"%string, PyInt 20)], Q2Qc 0)).
  vm_compute. reflexivity.
Defined.

(** C4 as stated fails: in this run the position [1] is visited in both
    turns and once more at the end, and the model training is called each
    time. *)
Lemma C4_counterexample :
  let E := mkEnv (λ _, float_lit 1 2) (λ _, [1])
             (λ k _, (Q2Qc (1 # 1), Q2Qc 0, k)) in
  let r := _start_particle_swarm_optimization E
             (__init__ [("x"%string, [PyInt 10; PyInt 20])] 2 1 1) in
  (∃ a, r.2 = inr a) ∧
  trained (log r.1) = [[1]; [1]; [1]] ∧
  train_calls r.1 = 3%nat ∧
  ¬ NoDup (trained (log r.1)).
Proof.
  intros E r.
  assert (trained (log r.1) = [[1]; [1]; [1]]) as Ht by (vm_compute; reflexivity).
  split_and!.
  - eexists. vm_compute. reflexivity.
  - exact Ht.
  - vm_compute. reflexivity.
  - rewrite Ht. intros Hn. apply NoDup_cons in Hn as [Hn _].
    apply Hn. constructor.
Qed.

(** ** The personal best of a particle *)

(** C1 fails on the code: one particle, started at index [0] with the best
    position [4]; the training scores the first call [5] and every later
    call [3].  After the first turn the particle records the score [5]; the
    second turn evaluates index [3], scores [3], and the recorded score
    drops to [3]; the recorded best position is [4] all along, a position
    that was never evaluated. *)
Theorem C1_personal_best_overwritten :
  let space := [("x"%string, [PyInt 0; PyInt 1; PyInt 2; PyInt 3; PyInt 4])] in
  let E := mkEnv (λ _, float_lit 1 2) (λ k, [4 * Z.of_nat k])
             (λ k _, (if decide (k = 0%nat) then Q2Qc 5 else Q2Qc 3,
                      Q2Qc 0, k)) in
  let st0 := (_init_particles E (__init__ space 2 1 1)).1 in
  let st1 := (for_range (step E) 0 1 st0).1 in
  let st2 := (for_range (step E) 0 2 st0).1 in
  (Particle.pos <$> p_list st0) = [[0]] ∧
  ((λ p, (Particle.best_pos p, Particle.best_score p)) <$> p_list st1)
    = [([4], Some (Q2Qc 5))] ∧
  ((λ p, (Particle.best_pos p, Particle.best_score p)) <$> p_list st2)
    = [([4], Some (Q2Qc 3))] ∧
  trained (log st2) = [[0]; [3]].
Proof. vm_compute. done. Qed.

(** ** The velocity update *)








(** ** A particle at rest at the best positions *)















(** * Further properties *)

(** ** [Hyperactive.search] without ray *)

Lemma detect_ray_eq W h :
  Hyperactive.detect_ray W h =
  (add_hlog match Hyperactive.ray W with
            | RayNotInstalled => [Warn]
            | RayInstalled _ => []
            end h,
   inr match Hyperactive.ray W with
       | RayNotInstalled => false
       | RayInstalled b => b
       end).
Proof.
  unfold Hyperactive.detect_ray. destruct (Hyperactive.ray W).
  - reflexivity.
  - by rewrite add_hlog_nil.
Qed.

(** [search] when ray is missing or not initialised and the optimizer can
    be built: the state and the outcome, by what [optimizer.search()] and
    the four attribute reads do. *)
Lemma search_local_eq W call m c o h :
  Hyperactive.ray W ≠ RayInstalled true →
  Hyperactive.search_args W (Hyperactive._main_args_ h) call = inr m →
  Hyperactive.optimizer_dict h !! MainArgs.optimizer m = Some c →
  Hyperactive.new_optimizer W c m
    (Hyperactive.new_Arguments W (MainArgs.opt_para m)) = inr o →
  let o' := (Hyperactive.optimizer_search W o).1 in
  let k := Hyperactive.time_calls h in
  let h1 :=
    Hyperactive.set_optimizer o'
      (add_hlog match Hyperactive.ray W with
                | RayNotInstalled => [Warn]
                | RayInstalled _ => []
                end
         (Hyperactive.set_opt_args
            (Hyperactive.new_Arguments W (MainArgs.opt_para m))
            (Hyperactive.set_main_args m
               (Hyperactive.set_time_calls (S k) h)))) in
  Hyperactive.search W call h =
  match (Hyperactive.optimizer_search W o).2 with
  | Some e => (h1, inl e)
  | None =>
      match Optimizer.results_params o' with
      | None => (h1, inl AttributeError)
      | Some rp =>
      match Optimizer.results_models o' with
      | None => (Hyperactive.set_results_params rp h1, inl AttributeError)
      | Some rm =>
      match Optimizer.pos_list o' with
      | None =>
          (Hyperactive.set_results_models rm
             (Hyperactive.set_results_params rp h1), inl AttributeError)
      | Some pl =>
      match Optimizer.score_list o' with
      | None =>
          (Hyperactive.set_pos_list pl
             (Hyperactive.set_results_models rm
                (Hyperactive.set_results_params rp h1)), inl AttributeError)
      | Some sl =>
          (Hyperactive.set_total_time
             (Hyperactive.time W (S k) - Hyperactive.time W k)%Qc
             (Hyperactive.set_time_calls (S (S k))
                (Hyperactive.set_score_list sl
                   (Hyperactive.set_pos_list pl
                      (Hyperactive.set_results_models rm
                         (Hyperactive.set_results_params rp h1))))),
           inr tt)
      end end end end
  end.
Proof.
  intros Hray Hargs Hdict Hnew o' k h1.
  unfold Hyperactive.search, Hyperactive.now. bind_run.
  cbn [Hyperactive._main_args_ Hyperactive.set_time_calls].
  rewrite Hargs. unfold lift at 1. bind_run.
  cbn [Hyperactive.optimizer_dict Hyperactive.set_main_args
       Hyperactive.set_opt_args Hyperactive.set_time_calls].
  rewrite Hdict. unfold Hyperactive.getitem at 1. bind_run.
  rewrite (bind_eq _ _ _ _ _ (detect_ray_eq _ _)).
  assert (match Hyperactive.ray W with
          | RayNotInstalled => false
          | RayInstalled b => b
          end = false) as ->.
  { destruct (Hyperactive.ray W) as [|[]]; done. }
  bind_run. rewrite Hnew. unfold lift at 1. bind_run.
  fold o'.
  destruct (Hyperactive.optimizer_search W o).2 as [e|]; bind_run; [done|].
  cbn [Hyperactive._optimizer_ Hyperactive.set_optimizer].
  unfold Hyperactive.getattr at 1. bind_run.
  destruct (Optimizer.results_params o') as [rp|];
    unfold Hyperactive.getattr at 1; bind_run; [|done].
  cbn [Hyperactive._optimizer_ Hyperactive.set_optimizer
       Hyperactive.set_results_params].
  unfold Hyperactive.getattr at 1. bind_run.
  destruct (Optimizer.results_models o') as [rm|];
    unfold Hyperactive.getattr at 1; bind_run; [|done].
  cbn [Hyperactive._optimizer_ Hyperactive.set_optimizer
       Hyperactive.set_results_params Hyperactive.set_results_models].
  unfold Hyperactive.getattr at 1. bind_run.
  destruct (Optimizer.pos_list o') as [pl|];
    unfold Hyperactive.getattr at 1; bind_run; [|done].
  cbn [Hyperactive._optimizer_ Hyperactive.set_optimizer
       Hyperactive.set_results_params Hyperactive.set_results_models
       Hyperactive.set_pos_list].
  unfold Hyperactive.getattr at 1. bind_run.
  destruct (Optimizer.score_list o') as [sl|];
    unfold Hyperactive.getattr at 1; bind_run; [|done].
  done.
Qed.

(** X1: without an initialised ray, a search whose optimizer runs through
    stores the optimizer in [_optimizer_], copies its four result attributes
    into the object, and records as total time the difference of the two
    readings of the clock; a warning is issued exactly when ray cannot be
    imported; [get_total_time] then returns the recorded difference and
    [get_eval_time] the optimizer's [eval_time]. *)
Theorem search_local_collects_results (W : Hyperactive.World)
    (call : search_call) (m : MainArgs.t) (c : optimizer_class)
    (o o' : Optimizer.t) (h : Hyperactive.t) (rp rm pl sl : pyobj) :
  Hyperactive.ray W ≠ RayInstalled true →
  Hyperactive.search_args W (Hyperactive._main_args_ h) call = inr m →
  Hyperactive.optimizer_dict h !! MainArgs.optimizer m = Some c →
  Hyperactive.new_optimizer W c m
    (Hyperactive.new_Arguments W (MainArgs.opt_para m)) = inr o →
  Hyperactive.optimizer_search W o = (o', None) →
  Optimizer.results_params o' = Some rp →
  Optimizer.results_models o' = Some rm →
  Optimizer.pos_list o' = Some pl →
  Optimizer.score_list o' = Some sl →
  let k := Hyperactive.time_calls h in
  let t := (Hyperactive.time W (S k) - Hyperactive.time W k)%Qc in
  ∃ h', Hyperactive.search W call h = (h', inr tt) ∧
    Hyperactive._optimizer_ h' = Some o' ∧
    Hyperactive.results_params h' = Some rp ∧
    Hyperactive.results_models h' = Some rm ∧
    Hyperactive.pos_list h' = Some pl ∧
    Hyperactive.score_list h' = Some sl ∧
    Hyperactive.total_time h' = Some t ∧
    Hyperactive.time_calls h' = S (S k) ∧
    Hyperactive.hlog h' =
      Hyperactive.hlog h ++ match Hyperactive.ray W with
                            | RayNotInstalled => [Warn]
                            | RayInstalled _ => []
                            end ∧
    Hyperactive.get_total_time h' = (h', inr t) ∧
    Hyperactive.get_eval_time h' =
      (h', match Optimizer.eval_time o' with
           | Some et => inr et
           | None => inl AttributeError
           end).
Proof.
  intros Hray Hargs Hdict Hnew Hs Hrp Hrm Hpl Hsl k t.
  rewrite (search_local_eq W call m c o h Hray Hargs Hdict Hnew).
  rewrite Hs. cbn [fst snd]. rewrite Hrp, Hrm, Hpl, Hsl.
  eexists. split; [reflexivity|]. split_and!; try done.
  unfold Hyperactive.get_eval_time. bind_run. cbn.
  by destruct (Optimizer.eval_time o').
Qed.

(** A random search on a machine without ray; the clock reads 0, 1, ... *)
Lemma search_local_collects_results_witness :
  let o := Optimizer.mk (Some 11%nat) (Some 12%nat) (Some 13%nat)
             (Some 14%nat) (Some (Q2Qc (3 # 4))) in
  let W := Hyperactive.mkWorld (λ k, Qc_of_Z (Z.of_nat k)) RayNotInstalled
             (λ _ _ _ _ _, MainArgs.mk 0%nat "RandomSearch" 1)
             (λ m _, inr m)
             (λ p, p)
             (λ _ _ _, inr (Optimizer.mk None None None None None))
             (λ _, (o, None))
             (λ _ _ _ job, inr job) in
  ∃ h', Hyperactive.search W (mkSearchCall 0%nat 10 None 1%nat 1 0%nat 0%nat)
          (Hyperactive.__init__ W 0%nat 0%nat true 1 3 false) = (h', inr tt) ∧
    Hyperactive.results_params h' = Some 11%nat ∧
    Hyperactive.hlog h' = [Warn] ∧
    Hyperactive.get_eval_time h' = (h', inr (Q2Qc (3 # 4))).
Proof.
  intros o W.
  destruct (search_local_collects_results W
              (mkSearchCall 0%nat 10 None 1%nat 1 0%nat 0%nat)
              (MainArgs.mk 0%nat "RandomSearch" 1) RandomSearchOptimizer
              (Optimizer.mk None None None None None) o
              (Hyperactive.__init__ W 0%nat 0%nat true 1 3 false)
              11%nat 12%nat 13%nat 14%nat)
    as (h' & Hs & _ & Hrp & _ & _ & _ & _ & _ & _ & _ & He);
    try reflexivity; [done|].
  exists h'. split_and!; [exact Hs|exact Hrp| |exact He].
  vm_compute in Hs. injection Hs as <-. reflexivity.
Defined.

Lemma search_key_error_eq W call m h :
  Hyperactive.search_args W (Hyperactive._main_args_ h) call = inr m →
  Hyperactive.optimizer_dict h !! MainArgs.optimizer m = None →
  Hyperactive.search W call h =
  (Hyperactive.set_opt_args
     (Hyperactive.new_Arguments W (MainArgs.opt_para m))
     (Hyperactive.set_main_args m
        (Hyperactive.set_time_calls (S (Hyperactive.time_calls h)) h)),
   inl KeyError).
Proof.
  intros Hargs Hdict.
  unfold Hyperactive.search, Hyperactive.now. bind_run.
  cbn [Hyperactive._main_args_ Hyperactive.set_time_calls].
  rewrite Hargs. unfold lift at 1. bind_run.
  cbn [Hyperactive.optimizer_dict Hyperactive.set_main_args
       Hyperactive.set_opt_args Hyperactive.set_time_calls].
  rewrite Hdict. unfold Hyperactive.getitem at 1. by bind_run.
Qed.

(** X2: an optimizer name that is no key of [optimizer_dict] makes
    [search] raise a [KeyError] before ray is looked for and before any
    optimizer is built; by then [search_args] has already changed
    [_main_args_], and [_opt_args_] is set. *)
Theorem search_unknown_optimizer_key_error (W : Hyperactive.World)
    (call : search_call) (m : MainArgs.t) (h : Hyperactive.t) :
  Hyperactive.search_args W (Hyperactive._main_args_ h) call = inr m →
  Hyperactive.optimizer_dict h !! MainArgs.optimizer m = None →
  let r := Hyperactive.search W call h in
  r.2 = inl KeyError ∧
  Hyperactive._main_args_ r.1 = m ∧
  Hyperactive._opt_args_ r.1
    = Some (Hyperactive.new_Arguments W (MainArgs.opt_para m)) ∧
  Hyperactive._optimizer_ r.1 = Hyperactive._optimizer_ h ∧
  Hyperactive.results_params r.1 = Hyperactive.results_params h ∧
  Hyperactive.total_time r.1 = Hyperactive.total_time h ∧
  Hyperactive.hlog r.1 = Hyperactive.hlog h.
Proof.
  intros Hargs Hdict r. subst r.
  by rewrite (search_key_error_eq W call m h Hargs Hdict).
Qed.

(** The misspelt name [ParticleSwarmOptimizer] on a fresh object. *)
Lemma search_unknown_optimizer_key_error_witness :
  let W := Hyperactive.mkWorld (λ k, Qc_of_Z (Z.of_nat k)) (RayInstalled true)
             (λ _ _ _ _ _, MainArgs.mk 0%nat "RandomSearch" 1)
             (λ _ _, inr (MainArgs.mk 7%nat "ParticleSwarmOptimizer" 2))
             (λ p, p)
             (λ _ _ _, inl TypeError)
             (λ o, (o, None))
             (λ _ _ _ job, inr job) in
  let r := Hyperactive.search W (mkSearchCall 0%nat 10 None 1%nat 2 0%nat 0%nat)
             (Hyperactive.__init__ W 0%nat 0%nat true 1 3 false) in
  r.2 = inl KeyError ∧ Hyperactive.hlog r.1 = [].
Proof.
  intros W.
  destruct (search_unknown_optimizer_key_error W
              (mkSearchCall 0%nat 10 None 1%nat 2 0%nat 0%nat)
              (MainArgs.mk 7%nat "ParticleSwarmOptimizer" 2)
              (Hyperactive.__init__ W 0%nat 0%nat true 1 3 false)
              eq_refl eq_refl) as (H1 & _ & _ & _ & _ & _ & H2).
  by split.
Defined.

(** X3: when [optimizer.search()] raises, [search] passes the exception
    on; the optimizer object is already stored in [_optimizer_], but no
    result attribute and no total time is written. *)
Theorem search_local_failure_keeps_optimizer (W : Hyperactive.World)
    (call : search_call) (m : MainArgs.t) (c : optimizer_class)
    (o o' : Optimizer.t) (e : exn) (h : Hyperactive.t) :
  Hyperactive.ray W ≠ RayInstalled true →
  Hyperactive.search_args W (Hyperactive._main_args_ h) call = inr m →
  Hyperactive.optimizer_dict h !! MainArgs.optimizer m = Some c →
  Hyperactive.new_optimizer W c m
    (Hyperactive.new_Arguments W (MainArgs.opt_para m)) = inr o →
  Hyperactive.optimizer_search W o = (o', Some e) →
  let r := Hyperactive.search W call h in
  r.2 = inl e ∧
  Hyperactive._optimizer_ r.1 = Some o' ∧
  Hyperactive.results_params r.1 = Hyperactive.results_params h ∧
  Hyperactive.results_models r.1 = Hyperactive.results_models h ∧
  Hyperactive.pos_list r.1 = Hyperactive.pos_list h ∧
  Hyperactive.score_list r.1 = Hyperactive.score_list h ∧
  Hyperactive.total_time r.1 = Hyperactive.total_time h.
Proof.
  intros Hray Hargs Hdict Hnew Hs r. subst r.
  rewrite (search_local_eq W call m c o h Hray Hargs Hdict Hnew).
  rewrite Hs. done.
Qed.

(** An optimizer whose search raises a [ValueError]. *)
Lemma search_local_failure_keeps_optimizer_witness :
  let o := Optimizer.mk None None None None None in
  let W := Hyperactive.mkWorld (λ k, Qc_of_Z (Z.of_nat k)) (RayInstalled false)
             (λ _ _ _ _ _, MainArgs.mk 0%nat "RandomSearch" 1)
             (λ m _, inr m)
             (λ p, p)
             (λ _ _ _, inr o)
             (λ o, (o, Some ValueError))
             (λ _ _ _ job, inr job) in
  let r := Hyperactive.search W (mkSearchCall 0%nat 10 None 1%nat 1 0%nat 0%nat)
             (Hyperactive.__init__ W 0%nat 0%nat true 1 3 false) in
  r.2 = inl ValueError ∧ Hyperactive._optimizer_ r.1 = Some o ∧
  Hyperactive.total_time r.1 = None.
Proof.
  intros o W.
  destruct (search_local_failure_keeps_optimizer W
              (mkSearchCall 0%nat 10 None 1%nat 1 0%nat 0%nat)
              (MainArgs.mk 0%nat "RandomSearch" 1) RandomSearchOptimizer
              o o ValueError
              (Hyperactive.__init__ W 0%nat 0%nat true 1 3 false))
    as (H1 & H2 & _ & _ & _ & _ & H3); try reflexivity; [done|].
  by split_and!.
Defined.

(** X4: with ray initialised, [search] on an object that still holds the
    optimizer [o0] of an earlier search does not fail: the remote jobs are
    run and their results dropped, and the four result attributes are read
    from the old [o0] again. *)
Theorem search_ray_reports_earlier_optimizer (W : Hyperactive.World)
    (call : search_call) (m : MainArgs.t) (c : optimizer_class)
    (o0 : Optimizer.t) (h : Hyperactive.t) (vs : list pyobj)
    (rp rm pl sl : pyobj) :
  let n := Z.to_nat (MainArgs.n_jobs m) in
  let a := Hyperactive.new_Arguments W (MainArgs.opt_para m) in
  Hyperactive.ray W = RayInstalled true →
  Hyperactive.search_args W (Hyperactive._main_args_ h) call = inr m →
  Hyperactive.optimizer_dict h !! MainArgs.optimizer m = Some c →
  Hyperactive.collect (Hyperactive.remote_search W c m a <$> seq 0 n)
    = inr vs →
  Hyperactive._optimizer_ h = Some o0 →
  Optimizer.results_params o0 = Some rp →
  Optimizer.results_models o0 = Some rm →
  Optimizer.pos_list o0 = Some pl →
  Optimizer.score_list o0 = Some sl →
  ∃ h', Hyperactive.search W call h = (h', inr tt) ∧
    Hyperactive._optimizer_ h' = Some o0 ∧
    Hyperactive.results_params h' = Some rp ∧
    Hyperactive.results_models h' = Some rm ∧
    Hyperactive.pos_list h' = Some pl ∧
    Hyperactive.score_list h' = Some sl ∧
    Hyperactive.hlog h' =
      Hyperactive.hlog h ++ (RemoteActor c <$> seq 0 n) ++
      (RemoteSearch <$> seq 0 n) ++ [RayGet n].
Proof.
  intros n a Hray Hargs Hdict Hvs Ho Hrp Hrm Hpl Hsl.
  unfold Hyperactive.search, Hyperactive.now, Hyperactive.detect_ray.
  bind_run.
  cbn [Hyperactive._main_args_ Hyperactive.set_time_calls].
  rewrite Hargs. unfold lift at 1. bind_run.
  cbn [Hyperactive.optimizer_dict Hyperactive.set_main_args
       Hyperactive.set_opt_args Hyperactive.set_time_calls].
  rewrite Hdict. unfold Hyperactive.getitem at 1. rewrite Hray. bind_run.
  rewrite (bind_eq _ _ _ _ _ (submit_jobs_eq _ _ _)).
  unfold Hyperactive.ray_get, Hyperactive.emit. bind_run.
  fold n a. rewrite Hvs. unfold lift at 1. bind_run.
  cbn [Hyperactive._optimizer_ add_hlog Hyperactive.set_opt_args
       Hyperactive.set_main_args Hyperactive.set_time_calls].
  rewrite ?Ho. unfold Hyperactive.getattr at 1. bind_run.
  rewrite Hrp. unfold Hyperactive.getattr at 1. bind_run.
  cbn [Hyperactive._optimizer_ Hyperactive.set_results_params].
  rewrite ?Ho. unfold Hyperactive.getattr at 1. bind_run.
  rewrite Hrm. unfold Hyperactive.getattr at 1. bind_run.
  cbn [Hyperactive._optimizer_ Hyperactive.set_results_params
       Hyperactive.set_results_models].
  rewrite ?Ho. unfold Hyperactive.getattr at 1. bind_run.
  rewrite Hpl. unfold Hyperactive.getattr at 1. bind_run.
  cbn [Hyperactive._optimizer_ Hyperactive.set_results_params
       Hyperactive.set_results_models Hyperactive.set_pos_list].
  rewrite ?Ho. unfold Hyperactive.getattr at 1. bind_run.
  rewrite Hsl. unfold Hyperactive.getattr at 1. bind_run.
  unfold modify. eexists. split; [reflexivity|].
  cbn. rewrite ?Ho. split_and!; try done. by rewrite <- !app_assoc.
Qed.

(** A second search, now on ray, on an object whose earlier optimizer
    holds the results 11 .. 14. *)
Lemma search_ray_reports_earlier_optimizer_witness :
  let o0 := Optimizer.mk (Some 11%nat) (Some 12%nat) (Some 13%nat)
              (Some 14%nat) None in
  let W := Hyperactive.mkWorld (λ k, Qc_of_Z (Z.of_nat k)) (RayInstalled true)
             (λ _ _ _ _ _, MainArgs.mk 0%nat "RandomSearch" 1)
             (λ m _, inr m)
             (λ p, p)
             (λ _ _ _, inl TypeError)
             (λ o, (o, None))
             (λ _ _ _ job, inr (100 + job)%nat) in
  let h := Hyperactive.set_optimizer o0
             (Hyperactive.__init__ W 0%nat 0%nat true 1 3 false) in
  ∃ h', Hyperactive.search W
          (mkSearchCall 0%nat 10 None 1%nat 1 0%nat 0%nat) h = (h', inr tt) ∧
    Hyperactive.results_params h' = Some 11%nat ∧
    Hyperactive.hlog h' =
      [RemoteActor RandomSearchOptimizer 0%nat; RemoteSearch 0%nat;
       RayGet 1%nat].
Proof.
  intros o0 W h.
  destruct (search_ray_reports_earlier_optimizer W
              (mkSearchCall 0%nat 10 None 1%nat 1 0%nat 0%nat)
              (MainArgs.mk 0%nat "RandomSearch" 1) RandomSearchOptimizer
              o0 h [100%nat] 11%nat 12%nat 13%nat 14%nat
              eq_refl eq_refl eq_refl eq_refl eq_refl eq_refl eq_refl
              eq_refl eq_refl)
    as (h' & Hs & _ & Hrp & _ & _ & _ & Hl).
  exists h'. by split_and!.
Defined.

(** ** The run of the particle swarm *)

(** X5: with [n_jobs = 0] the division in the first line of
    [_start_particle_swarm_optimization] raises a [ZeroDivisionError]; no
    particle has been created and nothing was printed, drawn or trained. *)
Theorem run_zero_jobs_zero_division (E : Env) (st : State) :
  n_jobs st = 0 →
  _start_particle_swarm_optimization E st = (st, inl ZeroDivisionError).
Proof.
  intros Hj. unfold _start_particle_swarm_optimization. bind_run.
  unfold n_steps_of. rewrite decide_True by done. by unfold lift.
Qed.

Lemma run_zero_jobs_zero_division_witness :
  let E := mkEnv (λ _, float_lit 1 2) (λ _, [1])
             (λ k _, (Q2Qc 1, Q2Qc 0, k)) in
  let st := __init__ [("x"%string, [PyInt 0; PyInt 1])] 10 3 0 in
  _start_particle_swarm_optimization E st = (st, inl ZeroDivisionError).
Proof.
  intros E st. apply (run_zero_jobs_zero_division E st). reflexivity.
Defined.

#[local] Instance same_size_preorder : PreOrder same_size.
Proof.
  split.
  - by intros st.
  - intros a b c. unfold same_size. congruence.
Qed.

Lemma get_particle_same_size i : preserves same_size (get_particle i).
Proof. unfold get_particle. preserves_tac. Qed.

Lemma update_particle_same_size i f :
  preserves same_size (update_particle i f).
Proof.
  unfold update_particle. preserves_tac. unfold same_size. st_simpl.
  apply length_alter.
Qed.

Lemma step_same_size E i : preserves same_size (step E i).
Proof.
  unfold step, _eval_particles, eval_body, _find_best_particle,
    find_best_body, _move_particles, move_body, _pos_np2values_dict,
    _train_model, random, emit.
  preserves_tac;
    auto using get_particle_same_size, update_particle_same_size; done.
Qed.

(** X6: the size of the swarm is fixed: a turn of the loop never adds or
    drops a particle, whether it returns or raises, and a run with
    [n_jobs <> 0] ends, in either way, with exactly [n_particles]
    particles. *)
Theorem swarm_size_fixed (E : Env) (st : State) :
  (∀ i, length (p_list (step E i st).1) = length (p_list st)) ∧
  (n_jobs st ≠ 0 →
   length (p_list (_start_particle_swarm_optimization E st).1)
   = n_particles st).
Proof.
  split.
  - intros i. apply step_same_size.
  - intros Hj. unfold _start_particle_swarm_optimization. bind_run.
    unfold n_steps_of. rewrite decide_False by done. unfold lift at 1.
    bind_run. unfold _init_particles. bind_run.
    set (st1 := set_world _ _ _ _ _).
    assert (length (p_list st1) = n_particles st) as H1
      by apply init_list_length.
    clearbody st1.
    set (N := Z.to_nat _). clearbody N. rewrite <- H1.
    match goal with |- length (p_list (?m st1).1) = _ =>
      assert (preserves same_size m) as Hm end.
    { unfold _pos_np2values_dict, _train_model, emit.
      preserves_tac; try done. apply step_same_size. }
    apply Hm.
Qed.

Lemma swarm_size_fixed_witness :
  let E := mkEnv (λ _, float_lit 1 2) (λ _, [1])
             (λ k _, (Q2Qc 1, Q2Qc 0, k)) in
  let st := __init__ [("x"%string, [PyInt 0; PyInt 1])] 4 3 2 in
  length (p_list (_start_particle_swarm_optimization E st).1) = 3%nat.
Proof.
  intros E st. apply (proj2 (swarm_size_fixed E st)). done.
Defined.

(** ** The global best of an evaluated swarm *)

Lemma find_best_body_searching l st0 i st :
  Forall (λ p, is_Some (Particle.best_score p)) l → (i < length l)%nat →
  searching l st0 i st →
  wp (find_best_body i) (λ _, searching l st0 (S i)) (λ _, False) st.
Proof.
  intros Hl Hi (Hp & Hle & Hmax & Hwho).
  destruct (lookup_lt_is_Some_2 l i Hi) as [p Hpi].
  destruct (Forall_lookup_1 _ _ _ _ Hl Hpi) as [s Hs].
  unfold wp, find_best_body, get_particle. bind_run. rewrite Hp, Hpi.
  bind_run. rewrite Hs.
  destruct (s ?= best_score st)%Qc eqn:Hc; cbn [ret modify].
  - apply Qceq_alt in Hc.
    split_and!; [done..| |].
    + intros j p' s' Hj Hp' Hs'. destruct (decide (j = i)) as [->|].
      * assert (s' = s) as -> by congruence. rewrite Hc. apply Qcle_refl.
      * apply (Hmax j p'); [lia|done..].
    + destruct Hwho as [?|(j & p' & ? & ?)]; [by left|].
      right. exists j, p'. split; [lia|done].
  - apply Qclt_alt in Hc.
    split_and!; [done..| |].
    + intros j p' s' Hj Hp' Hs'. destruct (decide (j = i)) as [->|].
      * assert (s' = s) as -> by congruence. by apply Qclt_le_weak.
      * apply (Hmax j p'); [lia|done..].
    + destruct Hwho as [?|(j & p' & ? & ?)]; [by left|].
      right. exists j, p'. split; [lia|done].
  - apply Qcgt_alt in Hc. unfold searching. st_simpl.
    assert (best_score st0 < s)%Qc as Hlt by (by eapply Qcle_lt_trans).
    split_and!; [done|by apply Qclt_le_weak| |].
    + intros j p' s' Hj Hp' Hs'. destruct (decide (j = i)) as [->|].
      * assert (s' = s) as -> by congruence. apply Qcle_refl.
      * eapply Qcle_trans; [apply (Hmax j p'); [lia|done..]|].
        by apply Qclt_le_weak.
    + right. exists i, p. split_and!; [lia|done..].
Qed.

(** X7: on a swarm in which every particle has been evaluated,
    [_find_best_particle] returns, leaves the particles as they are, and
    ends with a global best score that is at least the earlier one and at
    least the score of every particle; the global best pair is either
    untouched or the score and the recorded best position of a particle
    whose score is strictly above the earlier global best. *)
Theorem find_best_is_maximum (st : State) :
  Forall (λ p, is_Some (Particle.best_score p)) (p_list st) →
  ∃ st', _find_best_particle st = (st', inr tt) ∧
    p_list st' = p_list st ∧
    (best_score st ≤ best_score st')%Qc ∧
    (∀ p s, p ∈ p_list st → Particle.best_score p = Some s →
            (s ≤ best_score st')%Qc) ∧
    (same_best st st' ∨
     ∃ p, p ∈ p_list st ∧
          Particle.best_score p = Some (best_score st') ∧
          best_pos st' = Some (Particle.best_pos p) ∧
          (best_score st < best_score st')%Qc).
Proof.
  intros Hl.
  assert (wp _find_best_particle
            (λ _, searching (p_list st) st (length (p_list st)))
            (λ _, False) st) as Hwp.
  { unfold _find_best_particle, for_particles. wp_step. wp_step.
    apply (wp_for_range_idx (searching (p_list st) st)).
    - split_and!; [done|apply Qcle_refl|intros; lia|by left].
    - intros i st' Hi Hs. apply find_best_body_searching; [done|lia|done]. }
  unfold wp in Hwp.
  destruct (_find_best_particle st) as [st' [e|[]]]; [done|].
  destruct Hwp as (Hp & Hle & Hmax & Hwho).
  exists st'. split_and!; [done..| |].
  - intros p s Hin Hs. apply list_elem_of_lookup in Hin as [j Hj].
    apply (Hmax j p); [by eapply lookup_lt_Some|done..].
  - destruct Hwho as [?|(j & p & _ & Hj & ? & ? & ?)]; [by left|].
    right. exists p. split_and!; [|done..].
    by eapply list_elem_of_lookup_2.
Qed.

(** Three evaluated particles with the scores 2, 7 and 7: the first of
    the two best gives the global best. *)
Lemma find_best_is_maximum_witness :
  let p (s b : Z) :=
    Particle.mk [0] [fzero] [b] (Some (Qc_of_Z s)) None None in
  let st := mkState [] 1 1 3 (Q2Qc 0) None [p 2 10; p 7 20; p 7 30]
              0 0 0 [] in
  ∃ st', _find_best_particle st = (st', inr tt) ∧
    best_score st' = Qc_of_Z 7 ∧ best_pos st' = Some [20].
Proof.
  intros p st.
  destruct (find_best_is_maximum st) as (st' & H1 & _).
  { repeat constructor; by eexists. }
  exists st'. split; [exact H1|].
  vm_compute in H1. injection H1 as <-. by split.
Defined.

(** ** Where the reported best position comes from *)

Lemma fmap_alter_same {A B : Type} (g : A → B) (f : A → A) (i : nat)
    (l : list A) :
  (∀ x, l !! i = Some x → g (f x) = g x) → g <$> alter f i l = g <$> l.
Proof.
  intros Hf. apply list_eq. intros j.
  rewrite !list_lookup_fmap, list_lookup_alter.
  destruct (decide (i = j)) as [<-|]; [|done].
  destruct (l !! i) as [x|] eqn:Hx; [|done]. cbn. f_equal. by apply Hf.
Qed.

Lemma init_list_lookup E dim k n i p :
  init_list E dim k n !! i = Some p →
  (i < n)%nat ∧
  Particle.pos p = random_position E (k + 2 * i) ∧
  Particle.best_pos p = random_position E (k + 2 * i + 1).
Proof.
  revert k i. induction n as [|n IH]; intros k [|i]; cbn [init_list]; try done.
  - intros [= <-]. cbn. rewrite Nat.add_0_r, Nat.add_1_r. split_and!; [lia|done..].
  - intros Hp. apply IH in Hp as (? & -> & ->).
    split_and!; [lia|f_equal; lia..].
Qed.

Lemma eval_body_drawn E space l0 i st :
  drawn space l0 st →
  wp (eval_body E i) (λ _, drawn space l0) (drawn space l0) st.
Proof.
  intros (Hsp & Hl & Hg). unfold eval_body. wp_run; try done.
  unfold drawn. st_simpl. split_and!; [done| |done].
  by rewrite fmap_alter_same.
Qed.

Lemma find_best_body_drawn space l0 i st :
  drawn space l0 st →
  wp (find_best_body i) (λ _, drawn space l0) (drawn space l0) st.
Proof.
  intros (Hsp & Hl & Hg). unfold find_best_body. wp_run; try done.
  unfold drawn. st_simpl. split_and!; [done..|].
  intros g [= <-]. rewrite <- Hl. apply list_elem_of_fmap_2.
  by eapply list_elem_of_lookup_2.
Qed.

Lemma move_body_drawn E space l0 i st :
  drawn space l0 st →
  wp (move_body E i) (λ _, drawn space l0) (drawn space l0) st.
Proof.
  intros (Hsp & Hl & Hg). unfold move_body.
  wp_run; unfold drawn; st_simpl; split_and!; try done.
  all: rewrite ?(fmap_alter_same Particle.best_pos (Particle.set_velo _))
    by done; try done.
  rewrite fmap_alter_same; [by rewrite fmap_alter_same|].
  intros x Hx.
  match goal with H : Particle.move ?q = inr _ |- _ =>
    apply move_fields in H as (_ & -> & _); assert (q = x) as -> by congruence
  end.
  done.
Qed.

Lemma step_drawn E space l0 i st :
  drawn space l0 st →
  wp (step E i) (λ _, drawn space l0) (drawn space l0) st.
Proof.
  intros Hst. unfold step. wp_run.
  assert (drawn space l0 (set_world (random_calls st) (position_calls st)
            (train_calls st) (log st ++ [PrintStep i]) st)) as H0 by done.
  unfold _eval_particles.
  eapply wp_mono; [apply (wp_for_particles (drawn space l0));
                     [done|intros; by apply eval_body_drawn]| |done].
  intros a1 st1 H1. cbv beta in *. apply wp_bind. unfold _find_best_particle.
  eapply wp_mono; [apply (wp_for_particles (drawn space l0));
                     [done|intros; by apply find_best_body_drawn]| |done].
  intros a2 st2 H2. cbv beta in *. unfold _move_particles.
  apply wp_for_particles; [done|intros; by apply move_body_drawn].
Qed.

(** The invariant over a whole run; a run that returns has decoded the
    global best position and returns the answer of the last training. *)
Lemma run_drawn E st :
  best_pos st = None →
  let l0 := init_list E (_get_dim_SearchSpace (ml_search_dict st))
              (position_calls st) (n_particles st) in
  wp (_start_particle_swarm_optimization E)
    (λ a st', drawn (ml_search_dict st) l0 st' ∧
       ∃ g d, best_pos st' = Some g ∧ decode (ml_search_dict st) g = inr d ∧
              a = let r := train_model E (pred (train_calls st')) d in
                  (r.2, r.1.1, d, r.1.2))
    (λ st', p_list st' = p_list st ∧ best_pos st' = None
            ∨ drawn (ml_search_dict st) l0 st') st.
Proof.
  intros Hb l0. unfold _start_particle_swarm_optimization.
  do 6 wp_step; [by left|]. wp_step. unfold _init_particles. wp_step.
  set (st1 := set_world _ _ _ _ _).
  assert (drawn (ml_search_dict st) l0 st1) as H1.
  { unfold st1, drawn. st_simpl. split_and!; [done..|]. by rewrite Hb. }
  clearbody st1. wp_step.
  eapply wp_mono;
    [apply (wp_for_range (drawn (ml_search_dict st) l0)); [done|]| |].
  { intros i st' H'. by apply step_drawn. }
  2:{ intros st' ?. by right. }
  intros a2 st2 (Hsp2 & Hl2 & Hg2). cbv beta in *.
  assert (∀ r q t lg, drawn (ml_search_dict st) l0
                         (set_world r q t lg st2)) as Hd2.
  { intros. by split_and!. }
  wp_run; try (right; apply Hd2).
  split; [apply Hd2|]. st_simpl.
  match goal with H : best_pos st2 = Some ?g, Hd : decode _ _ = inr ?d |- _ =>
    exists g, d end.
  split_and!; [done|congruence|done].
Qed.

Lemma drawn_best_pos E space dim np st g :
  drawn space (init_list E dim 0 np) st → best_pos st = Some g →
  ∃ i, (i < np)%nat ∧ g = random_position E (2 * i + 1).
Proof.
  intros (_ & _ & Hg) Hb. apply Hg in Hb.
  apply list_elem_of_fmap in Hb as (p & -> & Hp).
  apply list_elem_of_lookup in Hp as [i Hi].
  apply init_list_lookup in Hi as (? & _ & ->). by exists i.
Qed.

(** X8: whatever a run does, the global best position it ends with is
    either unset or one of the random positions drawn for [best_pos] by
    [_init_particles] (the draws with an odd number); no position that a
    particle moved to is ever recorded as the best. *)
Theorem best_position_is_initial_draw (E : Env) (space : search_space)
    (ns nj : Z) (np : nat) (g : position) :
  let r := _start_particle_swarm_optimization E (__init__ space ns np nj) in
  best_pos r.1 = Some g →
  ∃ i, (i < np)%nat ∧ g = random_position E (2 * i + 1).
Proof.
  intros r Hg.
  pose proof (run_drawn E (__init__ space ns np nj) eq_refl) as Hwp.
  cbv zeta in Hwp. unfold wp in Hwp. fold r in Hwp.
  cbn [__init__ ml_search_dict position_calls n_particles p_list] in Hwp.
  destruct r as [st' [e|a]]; cbn in Hg.
  - destruct Hwp as [[_ ?]|Hd]; [congruence|].
    by eapply drawn_best_pos.
  - destruct Hwp as [Hd _]. by eapply drawn_best_pos.
Qed.

(** The run of the witness of C5: the best position [2] is the second
    draw, not the position [1] that the particle was evaluated at. *)
Lemma best_position_is_initial_draw_witness :
  let space := [("x"%string, [PyInt 10; PyInt 20; PyInt 30])] in
  let E := mkEnv (λ _, float_lit 1 2) (λ k, [Z.of_nat (S k `mod` 3)])
             (λ k _, (Q2Qc (1 # 1), Q2Qc 0, k)) in
  ∃ i, (i < 1)%nat ∧ [2] = random_position E (2 * i + 1).
Proof.
  intros space E.
  apply (best_position_is_initial_draw E space 2 1 1 [2]).
  vm_compute. reflexivity.
Defined.

(** X9: a run that returns hands back the decoding of one of these
    initial draws, and with it the score, the training time and the model
    of one more training of that decoding, the call after the
    [int(n_searches/n_jobs) * n_particles] calls of the loop; the score is
    not the tracked global best score. *)
Theorem run_returns_final_training (E : Env) (space : search_space)
    (ns nj : Z) (np : nat) (a : Model * Qc * hyperpara_dict * Qc) :
  let r := _start_particle_swarm_optimization E (__init__ space ns np nj) in
  r.2 = inr a →
  ∃ i d, (i < np)%nat ∧
    best_pos r.1 = Some (random_position E (2 * i + 1)) ∧
    decode space (random_position E (2 * i + 1)) = inr d ∧
    a = let t := train_model E (Z.to_nat (ns `quot` nj) * np) d in
        (t.2, t.1.1, d, t.1.2).
Proof.
  intros r Hr.
  pose proof (run_drawn E (__init__ space ns np nj) eq_refl) as Hwp.
  pose proof (run_counted E (__init__ space ns np nj) eq_refl eq_refl) as Hc.
  cbv zeta in Hwp. unfold wp in Hwp, Hc. fold r in Hwp, Hc.
  cbn [__init__ ml_search_dict position_calls n_particles p_list
       n_searches n_jobs] in Hwp, Hc.
  destruct r as [st' [e|a']]; [done|]. cbn in Hr. injection Hr as ->.
  destruct Hwp as (Hd & g & d & Hg & Hdec & ->).
  destruct Hc as (Hc & _).
  destruct (drawn_best_pos _ _ _ _ _ _ Hd Hg) as (i & Hi & ->).
  exists i, d. split_and!; [done..|].
  rewrite Hc. by replace (pred (Z.to_nat (ns `quot` nj) * np + 1))
    with (Z.to_nat (ns `quot` nj) * np)%nat by lia.
Qed.

(** One particle, two turns, scores 1, 2, 3 in the order of the calls: the
    global best score is 2, the returned score is 3, that of the third
    training. *)
Lemma run_returns_final_training_witness :
  let space := [("x"%string, [PyInt 10; PyInt 20; PyInt 30])] in
  let E := mkEnv (λ _, float_lit 1 2) (λ k, [Z.of_nat (S k `mod` 3)])
             (λ k _, (Qc_of_Z (Z.of_nat (S k)), Q2Qc 0, k)) in
  let r := _start_particle_swarm_optimization E (__init__ space 2 1 1) in
  ∃ i d, (i < 1)%nat ∧
    best_pos r.1 = Some (random_position E (2 * i + 1)) ∧
    decode space (random_position E (2 * i + 1)) = inr d ∧
    (2%nat, Qc_of_Z 3, [("x"%string, PyInt 30)], Q2Qc 0)
    = let t := train_model E (Z.to_nat (2 `quot` 1) * 1) d in
      (t.2, t.1.1, d, t.1.2).
Proof.
  intros space E r.
  apply (run_returns_final_training E space 2 1 1).
  vm_compute. reflexivity.
Defined.
